(** * jobs-scraper: the streaming scrape pipeline, embedded in Rocq

    The development follows the layout of the Go repository:

    - [Go]       the few pieces of the Go runtime and standard library the
                 code relies on (errors, [strconv], [strings], [path]);
    - [Utils]    package [internal/utils]: the retryable HTTP transport, in
                 its two versions;
    - [Models]   package [internal/models];
    - [Scraper]  the listing scanner and the detail fetcher of package
                 [pipeline];
    - [Pipeline] the worker pool and the orchestrator;
    - [Repo]     package [internal/repo]: the batch upserts.

    Everything the program gets from outside (the network, the cancellation
    of its context, the HTML selections of goquery, the SQL server) is an
    explicit environment that the functions consult, so a run of the
    program is a pure function of that environment and its observable
    behaviour is the trace of events it returns. *)

From Stdlib Require Import ZArith Ascii String DecimalString.
From stdpp Require Import base strings list gmap fin_maps sorting.

(* ===================================================================== *)
(** * Go runtime and standard library *)
(* ===================================================================== *)

#[local] Set Warnings "-register-all".

Module Go.

Local Open Scope Z_scope.

(** An [error] value.  [LibError] stands for an error made by a library
    call ([net/http], [net/url], [strconv], [database/sql]); the two
    context errors are kept apart because callers compare against them;
    [Errorf] is [fmt.Errorf] without the [%w] verb and [ErrorfW prefix
    cause] is [fmt.Errorf(prefix + "%w", cause)], which keeps [cause]
    reachable through [Unwrap] ([cause] may be the nil error). *)
Inductive error : Type :=
| LibError (msg : string)
| Canceled
| DeadlineExceeded
| Errorf (msg : string)
| ErrorfW (prefix : string) (cause : option error).

(** [e.Error()] *)
Fixpoint Error (e : error) : string :=
  match e with
  | LibError msg => msg
  | Canceled => "context canceled"
  | DeadlineExceeded => "context deadline exceeded"
  | Errorf msg => msg
  | ErrorfW prefix cause =>
      prefix +:+ match cause with
                 | Some c => Error c
                 | None => "%!w(<nil>)"
                 end
  end.

(** [errors.Unwrap(e)] *)
Definition Unwrap (e : error) : option error :=
  match e with
  | ErrorfW _ cause => cause
  | _ => None
  end.

(** A Go result pair [(T, error)] of which exactly one side is used. *)
Inductive Result (A : Type) : Type :=
| Ok (a : A)
| Err (e : error).
Global Arguments Ok {A} a.
Global Arguments Err {A} e.

(** [strconv.Itoa], and the [%d] verb of [fmt]. *)
Definition Itoa (z : Z) : string := NilZero.string_of_int (Z.to_int z).

(** [time.Duration] counts nanoseconds. *)
Definition Duration := Z.
Definition Millisecond : Duration := 1000000.
Definition Second : Duration := 1000000000.

Definition MaxInt64 : Z := 9223372036854775807.

(** Arithmetic on [int] and [int64] wraps around. *)
Definition wrap64 (z : Z) : Z := (z + 2 ^ 63) mod 2 ^ 64 - 2 ^ 63.

(** [for i := range n]: the indices 0 .. n-1, none when [n <= 0]. *)
Definition range (n : Z) : list Z := Z.of_nat <$> seq 0 (Z.to_nat n).

(** ** Bytes and strings

    Strings are sequences of bytes, as in Go. *)

Definition byte (c : ascii) : Z := Z.of_N (N_of_ascii c).

Definition is_digit (c : ascii) : bool := (48 <=? byte c) && (byte c <=? 57).

Definition is_alpha (c : ascii) : bool :=
  ((97 <=? byte c) && (byte c <=? 122)) || ((65 <=? byte c) && (byte c <=? 90)).

(** The white space of [unicode.IsSpace] that is one byte long in UTF-8:
    tab, line feed, vertical tab, form feed, carriage return, space.  The
    white space beyond ASCII is not recognised by this model. *)
Definition is_space (c : ascii) : bool :=
  ((9 <=? byte c) && (byte c <=? 13)) || (byte c =? 32).

Fixpoint TrimLeft_space (s : string) : string :=
  match s with
  | String c s' => if is_space c then TrimLeft_space s' else s
  | EmptyString => EmptyString
  end.

(** [strings.TrimSpace] *)
Definition TrimSpace (s : string) : string :=
  String.rev (TrimLeft_space (String.rev (TrimLeft_space s))).

(** [strings.HasPrefix] is [String.prefix] with its arguments swapped. *)
Definition HasPrefix (s prefix : string) : bool := String.prefix prefix s.

Fixpoint drop_bytes (n : nat) (s : string) : string :=
  match n, s with
  | S n', String _ s' => drop_bytes n' s'
  | _, _ => s
  end.

(** [strings.ReplaceAll(s, old, new)] for a non-empty [old]: the
    occurrences are replaced from left to right, without overlap.  Each
    step consumes a byte of [s], so the length of [s] is fuel enough. *)
Fixpoint ReplaceAll_from (fuel : nat) (s old new : string) : string :=
  match fuel, s with
  | S fuel', String c s' =>
      if HasPrefix s old
      then new +:+ ReplaceAll_from fuel' (drop_bytes (String.length old) s) old new
      else String c (ReplaceAll_from fuel' s' old new)
  | _, _ => s
  end.

Definition ReplaceAll (s old new : string) : string :=
  ReplaceAll_from (String.length s) s old new.

(** The [%q] verb, for the strings without quotes and escapes. *)
Definition Quote (s : string) : string :=
  String (ascii_of_nat 34) (s +:+ String (ascii_of_nat 34) EmptyString).

(** ** strconv *)

Fixpoint digits_value (acc : Z) (s : string) : option Z :=
  match s with
  | EmptyString => Some acc
  | String c s' =>
      if is_digit c then digits_value (acc * 10 + (byte c - 48)) s' else None
  end.

Definition syntaxError (s : string) : error :=
  LibError ("strconv.ParseInt: parsing " +:+ Quote s +:+ ": invalid syntax").

Definition rangeError (s : string) : error :=
  LibError ("strconv.ParseInt: parsing " +:+ Quote s +:+ ": value out of range").

(** [strconv.ParseInt(s, 10, 64)].  Both results are returned, as in Go:
    on a syntax error the value is 0, on a range error it is the nearest
    bound. *)
Definition ParseInt (s : string) : Z * option error :=
  match s with
  | EmptyString => (0, Some (syntaxError s))
  | String c s' =>
      let neg := bool_decide (c = "-"%char) in
      let body := if bool_decide (c = "+"%char) || neg then s' else s in
      match body with
      | EmptyString => (0, Some (syntaxError s))
      | String _ _ =>
          match digits_value 0 body with
          | None => (0, Some (syntaxError s))
          | Some un =>
              if negb neg && (2 ^ 63 <=? un) then (2 ^ 63 - 1, Some (rangeError s))
              else if neg && (2 ^ 63 <? un) then (- 2 ^ 63, Some (rangeError s))
              else (if neg then - un else un, None)
          end
      end
  end.

(** ** path *)

Fixpoint TrimLeft_slash (s : string) : string :=
  match s with
  | String c s' => if bool_decide (c = "/"%char) then TrimLeft_slash s' else s
  | EmptyString => EmptyString
  end.

Fixpoint until_slash (s : string) : string :=
  match s with
  | String c s' =>
      if bool_decide (c = "/"%char) then EmptyString else String c (until_slash s')
  | EmptyString => EmptyString
  end.

(** [path.Base]: the last element of the path, after the trailing slashes
    are removed; "." for the empty path and "/" for a path of slashes. *)
Definition Base (path : string) : string :=
  if bool_decide (path = "") then "."
  else
    let last := String.rev (until_slash (TrimLeft_slash (String.rev path))) in
    if bool_decide (last = "") then "/" else last.

(** ** regexp

    The pattern [(\d+)$] matched by [FindStringSubmatch]: the leftmost
    match is the longest run of ASCII digits that ends the string, and the
    result holds the match and its one group, or is nil. *)
Fixpoint leading_digits (s : string) : string :=
  match s with
  | String c s' => if is_digit c then String c (leading_digits s') else EmptyString
  | EmptyString => EmptyString
  end.

Definition trailing_digits (s : string) : string :=
  String.rev (leading_digits (String.rev s)).

Definition FindStringSubmatch_digits_at_end (s : string) : list string :=
  let run := trailing_digits s in
  if bool_decide (run = "") then [] else [run; run].

(** ** net/url *)

Definition upperhex (n : Z) : ascii :=
  ascii_of_N (Z.to_N (if n <? 10 then 48 + n else 55 + n)).

(** [shouldEscape(c, encodeQueryComponent)]: all bytes but the letters,
    the digits and [-_.~]. *)
Definition shouldEscape (c : ascii) : bool :=
  negb (is_alpha c || is_digit c
        || bool_decide (c = "-"%char) || bool_decide (c = "_"%char)
        || bool_decide (c = "."%char) || bool_decide (c = "~"%char)).

(** [url.QueryEscape] *)
Fixpoint QueryEscape (s : string) : string :=
  match s with
  | EmptyString => EmptyString
  | String c s' =>
      if bool_decide (c = " "%char) then String "+" (QueryEscape s')
      else if shouldEscape c then
        String "%" (String (upperhex (byte c / 16))
                      (String (upperhex (byte c mod 16)) (QueryEscape s')))
      else String c (QueryEscape s')
  end.

(** [url.Values] as the program uses it: [Set] is the only operation, so
    every key holds one value. *)
Abbreviation Values := (gmap string string).

Fixpoint join (sep : string) (l : list string) : string :=
  match l with
  | [] => EmptyString
  | [x] => x
  | x :: l' => x +:+ sep +:+ join sep l'
  end.

(** [Values.Encode]: "key=value" pairs, both escaped, sorted by key and
    joined by "&". *)
Definition Encode (v : Values) : string :=
  join "&" ((fun kv => QueryEscape kv.1 +:+ "=" +:+ QueryEscape kv.2)
              <$> merge_sort (fun a b => String.le a.1 b.1) (map_to_list v)).

(** A stand-in for [url.Parse(rawURL)] that gives the [Path] of the
    parsed URL: it checks for control bytes, cuts the fragment and the
    query, recognises the scheme, skips the authority and decodes the
    percent-escapes of the path.  It does not validate the authority and
    the fragment as the library does.  The program is embedded for any
    [url.Parse]; this one serves to run it on plain links. *)
Fixpoint before (sep : ascii) (s : string) : string :=
  match s with
  | String c s' => if bool_decide (c = sep) then EmptyString else String c (before sep s')
  | EmptyString => EmptyString
  end.

Fixpoint from (sep : ascii) (s : string) : string :=
  match s with
  | String c s' => if bool_decide (c = sep) then s else from sep s'
  | EmptyString => EmptyString
  end.

Fixpoint has_control_byte (s : string) : bool :=
  match s with
  | String c s' => (byte c <? 32) || (byte c =? 127) || has_control_byte s'
  | EmptyString => false
  end.

(** [getScheme]: [None] for the error of a leading colon, [Some None]
    when there is no scheme (the rest is the whole string) and
    [Some (Some rest)] for a scheme followed by a colon and [rest]. *)
Fixpoint getScheme_from (i : nat) (s : string) : option (option string) :=
  match s with
  | EmptyString => Some None
  | String c s' =>
      if is_alpha c then getScheme_from (S i) s'
      else if is_digit c || bool_decide (c = "+"%char) || bool_decide (c = "-"%char)
              || bool_decide (c = "."%char) then
        match i with
        | O => Some None
        | S _ => getScheme_from (S i) s'
        end
      else if bool_decide (c = ":"%char) then
        match i with
        | O => None
        | S _ => Some (Some s')
        end
      else Some None
  end.

Definition unhex (c : ascii) : option Z :=
  if is_digit c then Some (byte c - 48)
  else if (97 <=? byte c) && (byte c <=? 102) then Some (byte c - 87)
  else if (65 <=? byte c) && (byte c <=? 70) then Some (byte c - 55)
  else None.

(** [unescape(s, encodePath)] *)
Fixpoint unescape_path (s : string) : option string :=
  match s with
  | EmptyString => Some EmptyString
  | String c s' =>
      if bool_decide (c = "%"%char) then
        match s' with
        | String h (String l s'') =>
            match unhex h, unhex l, unescape_path s'' with
            | Some hi, Some lo, Some t =>
                Some (String (ascii_of_N (Z.to_N (hi * 16 + lo))) t)
            | _, _, _ => None
            end
        | _ => None
        end
      else option_map (String c) (unescape_path s')
  end.

Definition Parse_Path (rawURL : string) : Result string :=
  let u := before "#" rawURL in
  if has_control_byte u then
    Err (LibError "net/url: invalid control character in URL")
  else if bool_decide (u = "*") then Ok "*"
  else
    match getScheme_from 0 u with
    | None => Err (LibError "missing protocol scheme")
    | Some scheme =>
        let rest := before "?" (default u scheme) in
        if negb (HasPrefix rest "/") && bool_decide (scheme <> None) then
          Ok EmptyString
        else if negb (HasPrefix rest "/")
                && bool_decide (from ":" (before "/" rest) <> "") then
          Err (LibError "first path segment in URL cannot contain colon")
        else
          let rest :=
            if (bool_decide (scheme <> None) || negb (HasPrefix rest "///"))
               && HasPrefix rest "//"
            then from "/" (drop_bytes 2 rest)
            else rest in
          match unescape_path rest with
          | Some path => Ok path
          | None => Err (LibError "invalid URL escape")
          end
    end.

End Go.

Import Go.

(* ===================================================================== *)
(** * Package utils: the retryable transport *)
(* ===================================================================== *)

Module Utils.

Local Open Scope Z_scope.

Record RetryConfig : Type := {
  MaxRetries : Z;
  BaseDelay : Duration;
  MaxDelay : Duration;
}.

(** The part of [*http.Response] the program reads. *)
Record Response : Type := {
  StatusCode : Z;
  Status : string;
  Body : string;
}.

(** What one [client.Do(req)] returns. *)
Inductive RoundTrip : Type :=
| DoErr (err : error)
| DoResp (resp : Response).

(** Which case of the [select] between [ctx.Done()] and [time.After]
    fires first. *)
Inductive Select : Type :=
| CtxDone (err : error)
| TimerFired.

(** The environment of one call of the transport: whether the request
    can be built, what the [attempt]-th round trip returns, and how the
    wait after the [attempt]-th round trip ends. *)
Record Env : Type := {
  NewRequestWithContext : option error;
  client_Do : Z -> RoundTrip;
  backoff_select : Z -> Select;
}.

(** What a call does, in order: a round trip, a wait that ran for its
    whole delay, a wait that the context cut short. *)
Inductive Event : Type :=
| EvDo (attempt : Z)
| EvSleep (delay : Duration)
| EvInterrupted (delay : Duration).

Definition is_2xx (resp : Response) : bool :=
  (200 <=? StatusCode resp) && (StatusCode resp <? 300).

(** The body of the [for attempt := 0; attempt <= maxRetries; attempt++]
    loop.  The two versions of the transport differ in the bound and in
    the expression of the delay only, which are the two parameters.
    [remaining] counts the iterations left; [lastErr] is the variable of
    that name.  Printing to the log and closing the response body are
    left out. *)
Section Attempts.
Variable maxRetries : Z.
Variable delay : Z -> Duration.
Variable env : Env.

Fixpoint attempts (remaining : nat) (attempt : Z) (lastErr : option error)
  : Result Response * list Event :=
  match remaining with
  | O => (Err (ErrorfW "all retry attempts failed, last error: " lastErr), [])
  | S remaining' =>
      match NewRequestWithContext env with
      | Some err => (Err (ErrorfW "failed to create request: " (Some err)), [])
      | None =>
          let retry (lastErr : option error) :=
            if attempt <? maxRetries then
              match backoff_select env attempt with
              | CtxDone err =>
                  (Err err, [EvDo attempt; EvInterrupted (delay attempt)])
              | TimerFired =>
                  let '(r, tr) := attempts remaining' (attempt + 1) lastErr in
                  (r, EvDo attempt :: EvSleep (delay attempt) :: tr)
              end
            else
              let '(r, tr) := attempts remaining' (attempt + 1) lastErr in
              (r, EvDo attempt :: tr)
          in
          match client_Do env attempt with
          | DoErr err => retry (Some err)
          | DoResp resp =>
              if is_2xx resp then (Ok resp, [EvDo attempt])
              else if StatusCode resp =? 429 then
                retry (Some (Errorf ("rate limited: " +:+ Itoa (StatusCode resp)
                                       +:+ " " +:+ Status resp)))
              else
                (Err (Errorf ("request failed " +:+ Itoa (StatusCode resp)
                                +:+ ": " +:+ Status resp)),
                 [EvDo attempt])
          end
      end
  end.
End Attempts.

(** The method [RetryableHTTPRequest] of [RetryableHTTPRequestImpl]: the
    bound is [s.config.MaxRetries] and the delay is [time.Second * 2].  The
    loop runs [MaxRetries + 1] times, and not at all for a negative bound;
    its counter is taken not to wrap around, as is the case for every bound
    below the largest [int]. *)
Module Impl.
Definition delay (attempt : Z) : Duration := Second * 2.

Definition RetryableHTTPRequest (config : RetryConfig) (env : Env)
  : Result Response * list Event :=
  attempts (MaxRetries config) delay env
           (Z.to_nat (MaxRetries config + 1)) 0 None.
End Impl.

(** The free function [RetryableHTTPRequest(ctx, url)]: the bound is the
    literal 3 and the delay is
    [min(time.Duration(math.Pow(2, float64(attempt)))*1*time.Second,
    30*time.Second)]; the powers of two it computes are exact. *)
Definition delay (attempt : Z) : Duration :=
  Z.min (2 ^ attempt * 1 * Second) (30 * Second).

Definition RetryableHTTPRequest (env : Env) : Result Response * list Event :=
  attempts 3 delay env 4 0 None.

(** ** Observations on a trace *)

Definition requests (tr : list Event) : nat :=
  length (omap (fun e => match e with
                         | EvDo attempt => Some attempt
                         | EvSleep _ | EvInterrupted _ => None
                         end) tr).

Definition delays (tr : list Event) : list Duration :=
  omap (fun e => match e with
                 | EvSleep d | EvInterrupted d => Some d
                 | EvDo _ => None
                 end) tr.

(** The three classes of the specification, in its words: success is a
    2xx status, retryable is a failed round trip or a 429, terminal is
    any other status. *)
Inductive Class : Type := Success | Retryable | Terminal.

Definition spec_class (o : RoundTrip) : Class :=
  match o with
  | DoErr _ => Retryable
  | DoResp resp =>
      if is_2xx resp then Success
      else if StatusCode resp =? 429 then Retryable
      else Terminal
  end.

(** The error a retryable outcome leaves in [lastErr]. *)
Definition cause_of (o : RoundTrip) : option error :=
  match o with
  | DoErr err => Some err
  | DoResp resp =>
      Some (Errorf ("rate limited: " +:+ Itoa (StatusCode resp)
                      +:+ " " +:+ Status resp))
  end.

(** The trace of [n] attempts, from attempt [from] on, that were each
    followed by their whole backoff delay. *)
Fixpoint retried (delay : Z -> Duration) (n : nat) (from : Z) : list Event :=
  match n with
  | O => []
  | S n' => EvDo from :: EvSleep (delay from) :: retried delay n' (from + 1)
  end.

(** The error held by [lastErr] after [n] retried attempts from [from]. *)
Definition last_cause (env : Env) (lastErr : option error) (n : nat) (from : Z)
  : option error :=
  match n with
  | O => lastErr
  | S n' => cause_of (client_Do env (from + Z.of_nat n'))
  end.

(** The attempts before [k] were all retried: each was retryable and its
    wait ran to the end. *)
Definition retried_before (env : Env) (k : Z) : Prop :=
  forall i, 0 <= i < k ->
    spec_class (client_Do env i) = Retryable /\
    backoff_select env i = TimerFired.

(** The error of a call that has used up its attempts. *)
Definition exhaustion_error (cause : option error) : error :=
  ErrorfW "all retry attempts failed, last error: " cause.

(** What the specification says of a call whose attempt [k] is reached:
    a success returns its response at once, a terminal status returns an
    error at once, and in both the trace ends with that round trip; a
    retryable outcome is followed by attempt [k + 1] when one is left
    and the wait was not cut short. *)
Definition classified (maxRetries : Z) (delay : Z -> Duration) (env : Env) (k : Z)
    (run : Result Response * list Event) : Prop :=
  match spec_class (client_Do env k) with
  | Success =>
      exists resp, client_Do env k = DoResp resp /\
        run = (Ok resp, retried delay (Z.to_nat k) 0 ++ [EvDo k])
  | Terminal =>
      exists resp, client_Do env k = DoResp resp /\
        run = (Err (Errorf ("request failed " +:+ Itoa (StatusCode resp)
                              +:+ ": " +:+ Status resp)),
               retried delay (Z.to_nat k) 0 ++ [EvDo k])
  | Retryable =>
      if k <? maxRetries then
        backoff_select env k = TimerFired ->
        exists tr, run.2 = retried delay (Z.to_nat k) 0
                             ++ EvDo k :: EvSleep (delay k) :: EvDo (k + 1) :: tr
      else
        run = (Err (exhaustion_error (cause_of (client_Do env k))),
               retried delay (Z.to_nat k) 0 ++ [EvDo k])
  end.

(** The claim that the error of an exhausted call keeps the number of
    attempts made: the number of round trips can be read off the error
    value. *)
Definition error_keeps_attempt_count : Prop :=
  exists count : error -> nat,
    forall (config : RetryConfig) (env : Env) (cause : option error)
           (tr : list Event),
      Impl.RetryableHTTPRequest config env = (Err (exhaustion_error cause), tr) ->
      count (exhaustion_error cause) = requests tr.

(** ** Sample environments and configurations *)

Definition response (code : Z) (status : string) : Response :=
  {| StatusCode := code; Status := status; Body := "" |}.

(** Every round trip answers with the same status. *)
Definition always (code : Z) (status : string) : Env :=
  {| NewRequestWithContext := None;
     client_Do := fun _ => DoResp (response code status);
     backoff_select := fun _ => TimerFired |}.

(** The connection is refused at every attempt. *)
Definition refused : Env :=
  {| NewRequestWithContext := None;
     client_Do := fun _ => DoErr (LibError "dial tcp: connection refused");
     backoff_select := fun _ => TimerFired |}.

(** A 429 at the first attempt, then a 200. *)
Definition limited_once : Env :=
  {| NewRequestWithContext := None;
     client_Do := fun attempt =>
       if attempt =? 0 then DoResp (response 429 "429 Too Many Requests")
       else DoResp (response 200 "200 OK");
     backoff_select := fun _ => TimerFired |}.

(** A 429 at the first attempt, and the context is cancelled during the
    wait that follows. *)
Definition cancelled_in_backoff : Env :=
  {| NewRequestWithContext := None;
     client_Do := fun _ => DoResp (response 429 "429 Too Many Requests");
     backoff_select := fun _ => CtxDone Canceled |}.

(** The configuration [NewScraper] builds from an empty [Config]. *)
Definition default_config : RetryConfig :=
  {| MaxRetries := 3; BaseDelay := 1 * Second; MaxDelay := 30 * Second |}.

Definition short_delays : RetryConfig :=
  {| MaxRetries := 3; BaseDelay := 500 * Millisecond; MaxDelay := 1 * Second |}.

Definition retries (n : Z) : RetryConfig :=
  {| MaxRetries := n; BaseDelay := 1 * Second; MaxDelay := 30 * Second |}.

End Utils.

(* ===================================================================== *)
(** * Package models *)
(* ===================================================================== *)

Module Models.

Record Job : Type := {
  ID : Z;
  Title : string;
  Company : string;
  CompanyLink : string;
  Location : string;
  JobLink : string;
}.

(** The field [Location] of the query is [QueryLocation] here, the name
    being taken by [Job]. *)
Record SearchQuery : Type := {
  Keywords : string;
  QueryLocation : string;
  FWT : string;
  GeoId : string;
}.

(** Modelled from the spec: the declaration of [JobDescription] is not
    among the sources; its fields are those of the composite literals of
    [GetJobDescription] and of the DetailRecord of the specification (the
    owning listing identifier, the text, the criteria by name). *)
Record JobDescription : Type := {
  JobID : Z;
  Description : string;
  Criteria : gmap string string;
}.

(** Modelled from the spec: the declaration of [JobWithDescription] is not
    among the sources either; it pairs a job with its description.  The
    fields [Job] and [JobDescription] are [TheJob] and [TheDescription]
    here. *)
Record JobWithDescription : Type := {
  TheJob : Job;
  TheDescription : JobDescription;
}.

End Models.

(* ===================================================================== *)
(** * Package pipeline: the scraper *)
(* ===================================================================== *)

Module Scraper.

Import Models.
Local Open Scope Z_scope.

Record Config : Type := {
  Timespan : string;
  Distance : string;
  SortBy : string;
  MaxRetries : Z;
  BaseDelay : Duration;
  MaxDelay : Duration;
  RequestTimeout : Duration;
}.

Definition NewScraper (config : Config) : Config :=
  {| Timespan := if bool_decide (Timespan config = "") then "r604800"
                 else Timespan config;
     Distance := Distance config;
     SortBy := SortBy config;
     MaxRetries := if MaxRetries config =? 0 then 3 else MaxRetries config;
     BaseDelay := if BaseDelay config =? 0 then 1 * Second else BaseDelay config;
     MaxDelay := if MaxDelay config =? 0 then 30 * Second else MaxDelay config;
     RequestTimeout := if RequestTimeout config =? 0 then 30 * Second
                       else RequestTimeout config |}.

(** The retry configuration both fetchers hand to the transport. *)
Definition retryConfig (s : Config) : Utils.RetryConfig :=
  {| Utils.MaxRetries := MaxRetries s;
     Utils.BaseDelay := BaseDelay s;
     Utils.MaxDelay := MaxDelay s |}.

(** ** The search URL *)

Definition baseURL : string :=
  "https://www.linkedin.com/jobs-guest/jobs/api/seeMoreJobPostings/search".

(** The [url.Values] that [buildSearchURL] fills, [Set] after [Set]. *)
Definition searchParams (query : SearchQuery) (page : Z) : Values :=
  let params : Values := ∅ in
  let params := <["keywords" := QueryEscape (Keywords query)]> params in
  let params := <["location" := QueryEscape (QueryLocation query)]> params in
  let params := if bool_decide (FWT query <> "")
                then <["f_WT" := FWT query]> params else params in
  <["start" := Itoa (wrap64 (25 * page))]> params.

Definition buildSearchURL (query : SearchQuery) (page : Z) : string :=
  baseURL +:+ "?" +:+ Encode (searchParams query page).

Definition buildJobDescriptionSearchURL (jobLink : string) : string :=
  ReplaceAll jobLink "jp.linkedin.com" "linkedin.com".

(** ** What goquery hands over

    A [Card] holds what the selectors of [ScrapeJobsWithContext] find in
    one [li > div.base-card] block, before trimming: the texts of the
    title, of the company and of the location, and the [href] attributes
    of the company and of the full link (empty when absent).  A
    [DetailDocument] holds what [parseJobDescription] finds in a detail
    page: the text that [parseHTMLContent] renders for the markup of the
    description (empty when there is none) and, for each item of the
    criteria list, the texts of its header and of its value. *)
Record Card : Type := {
  title_text : string;
  company_text : string;
  company_href : string;
  location_text : string;
  link_href : string;
}.

Record DetailDocument : Type := {
  description_markup : string;
  criteria_items : list (string * string);
}.

Inductive Event : Type :=
| EvFetch (url : string) (transport : list Utils.Event)
| EvSend (job : Job).

(** The cancellation of the context as the scan observes it: at the top
    of the iteration for [page], and in the [select] that sends the
    [k]-th job of [page]; [Some err] when the [ctx.Done()] case is taken,
    [err] being [ctx.Err()].  [network page] is the network during the
    fetch of [page]. *)
Record Env : Type := {
  network : Z -> Utils.Env;
  ctx_done : Z -> option error;
  send_select : Z -> nat -> option error;
}.

Section Scraper.
(** [url.Parse(rawURL)], reduced to the [Path] of its result. *)
Variable url_Parse : string -> Result string.
(** [goquery.NewDocumentFromReader] on a body, followed by the
    selection of the cards, respectively of the detail sections. *)
Variable listing_cards : string -> Result (list Card).
Variable detail_document : string -> Result DetailDocument.

(** Go returns the pair [(id, err)]; the caller reads both. *)
Definition extractJobIDFromURL (jobURL : string) : string * option error :=
  match url_Parse jobURL with
  | Err err => ("", Some (ErrorfW "invalid URL: " (Some err)))
  | Ok parsed_Path =>
      let lastSegment := Base parsed_Path in
      let matches := FindStringSubmatch_digits_at_end lastSegment in
      match matches with
      | _ :: id :: _ => (id, None)
      | _ => ("", Some (Errorf ("job ID not found in URL path: " +:+ jobURL)))
      end
  end.

(** The callback of [Each]: the job built from a card, and whether it
    is appended to [jobs].  The two errors are printed and otherwise
    unused. *)
Definition job_of_card (c : Card) : Job * bool :=
  let title := TrimSpace (title_text c) in
  let company := TrimSpace (company_text c) in
  let companyLink := TrimSpace (company_href c) in
  let location := TrimSpace (location_text c) in
  let jobLink := TrimSpace (link_href c) in
  let '(jobId, _) := extractJobIDFromURL jobLink in
  let '(jobIdInt, _) := ParseInt jobId in
  let job := {| ID := jobIdInt; Title := title; Company := company;
                CompanyLink := companyLink; Location := location;
                JobLink := jobLink |} in
  (job,
   bool_decide (title <> "") && bool_decide (company <> "")
   && bool_decide (location <> "") && bool_decide (jobLink <> "")).

Definition jobs_of_cards (cards : list Card) : list Job :=
  omap (fun c => let '(job, kept) := job_of_card c in
                 if kept then Some job else None) cards.

Definition ScrapeJobsWithContext
    (s : Config) (net : Utils.Env) (page : Z) (params : SearchQuery)
  : Result (list Job) * Event :=
  let url := buildSearchURL params page in
  let '(res, tr) := Utils.Impl.RetryableHTTPRequest (retryConfig s) net in
  match res with
  | Err err => (Err err, EvFetch url tr)
  | Ok res =>
      match listing_cards (Utils.Body res) with
      | Err err => (Err err, EvFetch url tr)
      | Ok cards => (Ok (jobs_of_cards cards), EvFetch url tr)
      end
  end.

(** The inner loop of the scan: each job goes to the channel unless the
    context is done first. *)
Fixpoint send_jobs (env : Env) (page : Z) (k : nat) (jobs : list Job)
  : option error * list Event :=
  match jobs with
  | [] => (None, [])
  | job :: jobs' =>
      match send_select env page k with
      | Some err => (Some err, [])
      | None =>
          let '(err, tr) := send_jobs env page (S k) jobs' in
          (err, EvSend job :: tr)
      end
  end.

Fixpoint scan_pages (s : Config) (env : Env) (params : SearchQuery)
    (pages : list Z) : option error * list Event :=
  match pages with
  | [] => (None, [])
  | i :: pages' =>
      match ctx_done env i with
      | Some err => (Some err, [])
      | None =>
          let '(jobs, fetch) := ScrapeJobsWithContext s (network env i) i params in
          match jobs with
          | Err err =>
              (Some (ErrorfW ("error scraping page " +:+ Itoa i +:+ ": ") (Some err)),
               [fetch])
          | Ok jobs =>
              let '(err, sent) := send_jobs env i 0 jobs in
              match err with
              | Some err => (Some err, fetch :: sent)
              | None =>
                  let '(err, tr) := scan_pages s env params pages' in
                  (err, fetch :: sent ++ tr)
              end
          end
      end
  end.

Definition ScrapeLinkedInJobsStreaming
    (s : Config) (env : Env) (numPages : Z) (params : SearchQuery)
  : option error * list Event :=
  scan_pages s env params (range numPages).

(** ** The detail fetcher *)

Definition parseJobDescription (doc : DetailDocument)
  : Result (string * gmap string string) :=
  let jobDescription := description_markup doc in
  let jobCriteria :=
    foldl (fun (m : gmap string string) '(h, v) =>
             let header := TrimSpace h in
             let value := TrimSpace v in
             if bool_decide (header <> "") && bool_decide (value <> "")
             then <[header := value]> m else m)
          ∅ (criteria_items doc) in
  let jobDescription := TrimSpace jobDescription in
  if bool_decide (jobDescription = "")
  then Err (Errorf "job description not found")
  else Ok (jobDescription, jobCriteria).

Definition ScrapeJobDescriptionWithContext
    (s : Config) (net : Utils.Env) (job : Job)
  : Result (string * gmap string string) * Event :=
  let url := buildJobDescriptionSearchURL (JobLink job) in
  let '(res, tr) := Utils.Impl.RetryableHTTPRequest (retryConfig s) net in
  match res with
  | Err err => (Err err, EvFetch url tr)
  | Ok res =>
      match detail_document (Utils.Body res) with
      | Err err => (Err err, EvFetch url tr)
      | Ok doc =>
          match parseJobDescription doc with
          | Err err => (Err err, EvFetch url tr)
          | Ok (jobDescription, jobCriteria) =>
              (Ok (TrimSpace jobDescription, jobCriteria), EvFetch url tr)
          end
      end
  end.

End Scraper.

(** ** Observations on a scan *)

Definition fetched (tr : list Event) : list string :=
  omap (fun e => match e with
                 | EvFetch url _ => Some url
                 | EvSend _ => None
                 end) tr.

Definition sent (tr : list Event) : list Job :=
  omap (fun e => match e with
                 | EvSend job => Some job
                 | EvFetch _ _ => None
                 end) tr.

(** Page [i] meets no failure: the transport returns a response and the
    cards are selected from its body. *)
Definition page_fetched (listing_cards : string -> Result (list Card))
    (s : Config) (env : Env) (i : Z) : Prop :=
  exists res cards,
    (Utils.Impl.RetryableHTTPRequest (retryConfig s) (network env i)).1 = Ok res /\
    listing_cards (Utils.Body res) = Ok cards.

(** The context is not cancelled during the scan. *)
Definition never_cancelled (env : Env) : Prop :=
  (forall i, ctx_done env i = None) /\ (forall i k, send_select env i k = None).

(** ** Sample inputs *)

(** The query of [GetJobs]. *)
Definition frontend_japan : SearchQuery :=
  {| Keywords := "Frontend Developer"; QueryLocation := "Japan";
     FWT := "2,3"; GeoId := "" |}.

Definition defaults : Config :=
  NewScraper {| Timespan := ""; Distance := ""; SortBy := ""; MaxRetries := 0;
                BaseDelay := 0; MaxDelay := 0; RequestTimeout := 0 |}.

(** Every request is answered by a 200 and the context is never done. *)
Definition quiet : Env :=
  {| network := fun _ => Utils.always 200 "200 OK";
     ctx_done := fun _ => None;
     send_select := fun _ _ => None |}.

(** The same network, with the context cancelled once page 0 is done. *)
Definition cancelled_after_first_page : Env :=
  {| network := fun _ => Utils.always 200 "200 OK";
     ctx_done := fun i => if i =? 0 then None else Some Canceled;
     send_select := fun _ _ => None |}.

Definition card (link : string) : Card :=
  {| title_text := " Frontend Developer ";
     company_text := "Acme";
     company_href := "https://www.linkedin.com/company/acme";
     location_text := "Tokyo, Japan";
     link_href := link |}.

Definition link_with_id : string :=
  "https://jp.linkedin.com/jobs/view/frontend-developer-12345?position=1&pageNum=0".

Definition link_without_id : string :=
  "https://jp.linkedin.com/jobs/view/frontend-developer".

Definition job_of_link (id : Z) (link : string) : Job :=
  {| ID := id; Title := "Frontend Developer"; Company := "Acme";
     CompanyLink := "https://www.linkedin.com/company/acme";
     Location := "Tokyo, Japan"; JobLink := link |}.

End Scraper.

(* ===================================================================== *)
(** * Package repo: the batch upserts *)
(* ===================================================================== *)

Module Repo.

Import Models.
Local Open Scope Z_scope.

(** The statements the repositories send: the multi-row [INSERT INTO jobs
    ... ON CONFLICT (id) DO UPDATE SET] every column to its [EXCLUDED]
    value, and the same on [job_descriptions] with the conflict target
    [job_id]; a row of the latter is the job identifier, the description
    and the criteria as JSON. *)
Inductive Statement : Type :=
| UpsertJobs (rows : list Job)
| UpsertJobDescriptions (rows : list (Z * string * string)).

(** The database behind [*sql.DB]: the two tables by key, the statements
    received so far, and the error every statement meets when the server
    cannot be reached. *)
Record DB : Type := {
  jobs : gmap Z Job;
  job_descriptions : gmap Z (string * string);
  executed : list Statement;
  failure : option error;
}.

Definition upsert_job (table : gmap Z Job) (job : Job) : gmap Z Job :=
  <[ID job := job]> table.

Definition upsert_description (table : gmap Z (string * string))
    (row : Z * string * string) : gmap Z (string * string) :=
  <[row.1.1 := (row.1.2, row.2)]> table.

(** [db.Exec] on those statements.  The server refuses an upsert that
    names a key twice ("ON CONFLICT DO UPDATE command cannot affect row a
    second time") and a description whose job is not stored (the foreign
    key of [job_descriptions]); a refused statement changes no table. *)
Definition Exec (stmt : Statement) (db : DB) : option error * DB :=
  let logged (jobs' : gmap Z Job) (descriptions' : gmap Z (string * string)) :=
    {| jobs := jobs'; job_descriptions := descriptions';
       executed := executed db ++ [stmt]; failure := failure db |} in
  match failure db with
  | Some err => (Some err, logged (jobs db) (job_descriptions db))
  | None =>
      match stmt with
      | UpsertJobs rows =>
          if bool_decide (NoDup (ID <$> rows)) then
            (None, logged (foldl upsert_job (jobs db) rows) (job_descriptions db))
          else
            (Some (LibError "pq: ON CONFLICT DO UPDATE command cannot affect row a second time"),
             logged (jobs db) (job_descriptions db))
      | UpsertJobDescriptions rows =>
          if negb (bool_decide (NoDup ((fun row => row.1.1) <$> rows))) then
            (Some (LibError "pq: ON CONFLICT DO UPDATE command cannot affect row a second time"),
             logged (jobs db) (job_descriptions db))
          else if negb (bool_decide (Forall (fun row => is_Some (jobs db !! row.1.1)) rows)) then
            (Some (LibError "pq: insert or update on table job_descriptions violates foreign key constraint"),
             logged (jobs db) (job_descriptions db))
          else
            (None, logged (jobs db) (foldl upsert_description (job_descriptions db) rows))
      end
  end.

Section Repositories.
(** [for _, job := range jobMap]: Go fixes no order for the iteration
    over a map; the order taken is a parameter. *)
Variable range_jobMap : gmap Z Job -> list Job.
(** [json.Marshal] on the criteria. *)
Variable json_Marshal : gmap string string -> Result string.

Definition SaveJobs (jobs : list Job) (db : DB) : option error * DB :=
  if bool_decide (length jobs = 0%nat) then (None, db)
  else
    let jobMap := foldl (fun (m : gmap Z Job) job => <[ID job := job]> m) ∅ jobs in
    let uniqueJobs := range_jobMap jobMap in
    let '(err, db) := Exec (UpsertJobs uniqueJobs) db in
    match err with
    | Some err => (Some (Errorf ("error inserting jobs: " +:+ Error err)), db)
    | None => (None, db)
    end.

(** The loop that builds the arguments of the statement: it stops at the
    first description whose criteria cannot be marshalled. *)
Fixpoint description_rows (jobDescriptions : list JobDescription)
  : Result (list (Z * string * string)) :=
  match jobDescriptions with
  | [] => Ok []
  | jd :: rest =>
      match json_Marshal (Criteria jd) with
      | Err err =>
          Err (Errorf ("error marshaling job criteria for job "
                         +:+ Itoa (JobID jd) +:+ ": " +:+ Error err))
      | Ok criteriaByte =>
          match description_rows rest with
          | Err err => Err err
          | Ok rows => Ok ((JobID jd, Description jd, criteriaByte) :: rows)
          end
      end
  end.

Definition SaveJobDescriptions (jobDescriptions : list JobDescription) (db : DB)
  : option error * DB :=
  if bool_decide (length jobDescriptions = 0%nat) then (None, db)
  else
    match description_rows jobDescriptions with
    | Err err => (Some err, db)
    | Ok rows =>
        let '(err, db) := Exec (UpsertJobDescriptions rows) db in
        match err with
        | Some err => (Some (Errorf ("error saving job descriptions: " +:+ Error err)), db)
        | None => (None, db)
        end
    end.
End Repositories.

(** "Last occurrence wins", in the words of the specification: the last
    job of the batch that has the identifier. *)
Fixpoint last_with_id (id : Z) (batch : list Job) : option Job :=
  match batch with
  | [] => None
  | job :: rest =>
      match last_with_id id rest with
      | Some later => Some later
      | None => if bool_decide (ID job = id) then Some job else None
      end
  end.

(** The order in which stdpp lists a map, one of the orders Go may take. *)
Definition in_key_order (m : gmap Z Job) : list Job := (map_to_list m).*2.

(** ** Sample inputs *)

Definition empty_db : DB :=
  {| jobs := ∅; job_descriptions := ∅; executed := []; failure := None |}.

Definition titled (id : Z) (title : string) : Job :=
  {| ID := id; Title := title; Company := "Acme";
     CompanyLink := "https://www.linkedin.com/company/acme";
     Location := "Tokyo, Japan";
     JobLink := "https://www.linkedin.com/jobs/view/" +:+ Itoa id |}.

(** One identifier twice, with two titles, and another record between. *)
Definition two_titles : list Job :=
  [titled 7 "Frontend Developer"; titled 8 "Backend Developer";
   titled 7 "Senior Frontend Developer"].

End Repo.

(* ===================================================================== *)
(** * Package pipeline: the worker pool and the orchestrator *)
(* ===================================================================== *)

Module Pipeline.

Import Models.
Local Open Scope Z_scope.

(** [JobDescriptionResult] of job_pipeline.go; its field [Job] is
    [ResultJob] here and its other fields carry the prefix too. *)
Record JobDescriptionResult : Type := {
  ResultJob : Job;
  ResultDescription : string;
  ResultCriteria : gmap string string;
  ResultError : option error;
}.

(** Where a worker goroutine of [GetJobDescription] stands: at the
    [range] over [jobChan], at the send of a result, or returned (its
    deferred [wg.Done()] has run). *)
Inductive Worker : Type :=
| Ranging
| Sending (result : JobWithDescription)
| Exited.

(** What a worker is handed with a job: whether the context is done when
    the worker looks, and the network during the fetch. *)
Record Delivery : Type := {
  job : Job;
  cancelled : bool;
  net : Utils.Env;
}.

(** For [jobDescriptionWorker], which consults the context more often:
    in the [select] that receives, in [limiter.Wait] and in the [select]
    that sends. *)
Record LimitedDelivery : Type := {
  delivery : Delivery;
  limiter_Wait : option error;
  send_cancelled : bool;
}.

(** The capacity of the two channels. *)
Definition capacity : nat := 100.

Definition numWorkers : nat := 3.

Section Pool.
Variable detail_document : string -> Result Scraper.DetailDocument.
Variable s : Scraper.Config.

Definition scrape (net : Utils.Env) (job : Job)
  : Result (string * gmap string string) :=
  (Scraper.ScrapeJobDescriptionWithContext detail_document s net job).1.

(** The body of the worker's loop in [GetJobDescription], from the
    receipt of a job to the next point where the goroutine may wait: a
    worker that finds the context done returns; one whose fetch fails
    prints the error and ranges on; one whose fetch succeeds goes to
    send the result. *)
Definition on_receive (d : Delivery) : Worker :=
  if cancelled d then Exited
  else
    match scrape (net d) (job d) with
    | Err err => Ranging
    | Ok (jd, jc) =>
        Sending {| TheJob := job d;
                   TheDescription := {| JobID := ID (job d);
                                        Description := jd;
                                        Criteria := jc |} |}
    end.

(** One worker of [GetJobDescription] on its own: what it sends, in
    order, when it is handed [ds] before the channel closes. *)
Fixpoint worker_sends (ds : list Delivery) : list JobWithDescription :=
  match ds with
  | [] => []
  | d :: ds' =>
      match on_receive d with
      | Exited => []
      | Ranging => worker_sends ds'
      | Sending result => result :: worker_sends ds'
      end
  end.

(** [jobDescriptionWorker] of job_pipeline.go: what it sends on
    [resultChan]. *)
Fixpoint jobDescriptionWorker (ds : list LimitedDelivery)
  : list JobDescriptionResult :=
  match ds with
  | [] => []
  | d :: ds' =>
      if cancelled (delivery d) then []
      else
        match limiter_Wait d with
        | Some err => []
        | None =>
            let result :=
              match scrape (net (delivery d)) (job (delivery d)) with
              | Err err =>
                  {| ResultJob := job (delivery d); ResultDescription := "";
                     ResultCriteria := ∅; ResultError := Some err |}
              | Ok (description, criteria) =>
                  {| ResultJob := job (delivery d);
                     ResultDescription := description;
                     ResultCriteria := criteria; ResultError := None |}
              end in
            if send_cancelled d then []
            else result :: jobDescriptionWorker ds'
        end
  end.

(** ** The pool of [GetJobDescription] as a transition system

    The state holds the two channels (their buffers and whether they
    are closed), the iterations left of the loop that starts the
    workers, the workers started so far, the counter of the
    [sync.WaitGroup], and whether some goroutine has panicked by
    sending on the closed output channel. *)
Record Pool : Type := {
  jobChan : list Job;
  jobChan_closed : bool;
  unspawned : nat;
  workers : list Worker;
  wg : Z;
  jobDescriptionChan : list JobWithDescription;
  jobDescriptionChan_closed : bool;
  panicked : bool;
}.

Definition GetJobDescription (n : nat) : Pool :=
  {| jobChan := []; jobChan_closed := false; unspawned := n; workers := [];
     wg := 0; jobDescriptionChan := []; jobDescriptionChan_closed := false;
     panicked := false |}.

Definition is_live (w : Worker) : bool :=
  match w with Exited => false | Ranging | Sending _ => true end.

(** [wg.Done()] runs when the worker returns. *)
Definition done (w : Worker) (wg : Z) : Z :=
  if is_live w then wg else wg - 1.

Inductive step : Pool -> Pool -> Prop :=
(** [wg.Add(1); go func() { ... }()] *)
| step_spawn p n :
    unspawned p = S n ->
    step p {| jobChan := jobChan p; jobChan_closed := jobChan_closed p;
              unspawned := n; workers := workers p ++ [Ranging];
              wg := wg p + 1;
              jobDescriptionChan := jobDescriptionChan p;
              jobDescriptionChan_closed := jobDescriptionChan_closed p;
              panicked := panicked p |}
(** the scanner sends a job *)
| step_produce p j :
    jobChan_closed p = false ->
    (length (jobChan p) < capacity)%nat ->
    step p {| jobChan := jobChan p ++ [j]; jobChan_closed := jobChan_closed p;
              unspawned := unspawned p; workers := workers p; wg := wg p;
              jobDescriptionChan := jobDescriptionChan p;
              jobDescriptionChan_closed := jobDescriptionChan_closed p;
              panicked := panicked p |}
(** [defer close(jobChan)] of [GetJobs] *)
| step_close_jobs p :
    jobChan_closed p = false ->
    step p {| jobChan := jobChan p; jobChan_closed := true;
              unspawned := unspawned p; workers := workers p; wg := wg p;
              jobDescriptionChan := jobDescriptionChan p;
              jobDescriptionChan_closed := jobDescriptionChan_closed p;
              panicked := panicked p |}
(** a worker receives a job and runs the body of its loop *)
| step_receive p i d rest :
    workers p !! i = Some Ranging ->
    jobChan p = job d :: rest ->
    step p {| jobChan := rest; jobChan_closed := jobChan_closed p;
              unspawned := unspawned p;
              workers := <[i := on_receive d]> (workers p);
              wg := done (on_receive d) (wg p);
              jobDescriptionChan := jobDescriptionChan p;
              jobDescriptionChan_closed := jobDescriptionChan_closed p;
              panicked := panicked p |}
(** the [range] ends: the channel is closed and empty *)
| step_drained p i :
    workers p !! i = Some Ranging ->
    jobChan p = [] ->
    jobChan_closed p = true ->
    step p {| jobChan := jobChan p; jobChan_closed := jobChan_closed p;
              unspawned := unspawned p;
              workers := <[i := Exited]> (workers p);
              wg := wg p - 1;
              jobDescriptionChan := jobDescriptionChan p;
              jobDescriptionChan_closed := jobDescriptionChan_closed p;
              panicked := panicked p |}
(** [jobDescriptionChan <- result] *)
| step_send p i result :
    workers p !! i = Some (Sending result) ->
    jobDescriptionChan_closed p = false ->
    (length (jobDescriptionChan p) < capacity)%nat ->
    step p {| jobChan := jobChan p; jobChan_closed := jobChan_closed p;
              unspawned := unspawned p;
              workers := <[i := Ranging]> (workers p);
              wg := wg p;
              jobDescriptionChan := jobDescriptionChan p ++ [result];
              jobDescriptionChan_closed := jobDescriptionChan_closed p;
              panicked := panicked p |}
(** a send on the closed channel panics *)
| step_send_closed p i result :
    workers p !! i = Some (Sending result) ->
    jobDescriptionChan_closed p = true ->
    step p {| jobChan := jobChan p; jobChan_closed := jobChan_closed p;
              unspawned := unspawned p; workers := workers p; wg := wg p;
              jobDescriptionChan := jobDescriptionChan p;
              jobDescriptionChan_closed := jobDescriptionChan_closed p;
              panicked := true |}
(** [wg.Wait(); close(jobDescriptionChan)]: the goroutine is started
    after the loop and passes [Wait] when the counter is zero *)
| step_close p :
    unspawned p = 0%nat ->
    wg p = 0 ->
    jobDescriptionChan_closed p = false ->
    step p {| jobChan := jobChan p; jobChan_closed := jobChan_closed p;
              unspawned := unspawned p; workers := workers p; wg := wg p;
              jobDescriptionChan := jobDescriptionChan p;
              jobDescriptionChan_closed := true;
              panicked := panicked p |}
(** the orchestrator receives a result *)
| step_consume p result rest :
    jobDescriptionChan p = result :: rest ->
    step p {| jobChan := jobChan p; jobChan_closed := jobChan_closed p;
              unspawned := unspawned p; workers := workers p; wg := wg p;
              jobDescriptionChan := rest;
              jobDescriptionChan_closed := jobDescriptionChan_closed p;
              panicked := panicked p |}.

Definition reachable (n : nat) (p : Pool) : Prop :=
  rtc step (GetJobDescription n) p.

(** The number of workers that have not returned. *)
Definition live (ws : list Worker) : nat :=
  sum_list ((fun w => if is_live w then 1%nat else 0%nat) <$> ws).

(** The [range] of the orchestrator over the output channel is over. *)
Definition consumer_finished (p : Pool) : Prop :=
  jobDescriptionChan_closed p = true /\ jobDescriptionChan p = [].

(** A bound on the steps the pool can still take once the input is
    closed. *)
Definition weight (w : Worker) : nat :=
  match w with Exited => 0 | Ranging => 1 | Sending _ => 3 end.

Definition remaining_work (p : Pool) : nat :=
  (2 * unspawned p + 3 * length (jobChan p) + sum_list (weight <$> workers p)
   + length (jobDescriptionChan p)
   + (if jobDescriptionChan_closed p then 0 else 1))%nat.
End Pool.

(** The invariant of the pool started with [n] workers: the counter of the
    wait group is the number of workers that have not returned; the loop
    has started [n] workers in the end; the output channel is closed only
    once the loop is over and the counter is zero; nothing has panicked. *)
Definition pool_invariant (n : nat) (p : Pool) : Prop :=
  wg p = Z.of_nat (live (workers p)) /\
  (length (workers p) + unspawned p = n)%nat /\
  (jobDescriptionChan_closed p = true -> unspawned p = 0%nat /\ wg p = 0%Z) /\
  panicked p = false.

(** The claim that the failure of a fetch is sent as a result: a worker
    handed one delivery whose fetch fails sends a result for its job. *)
Definition failure_is_sent : Prop :=
  forall (detail_document : string -> Result Scraper.DetailDocument)
         (s : Scraper.Config) (d : Delivery) (err : error),
    cancelled d = false ->
    scrape detail_document s (net d) (job d) = Err err ->
    exists result,
      result ∈ worker_sends detail_document s [d] /\ TheJob result = job d.

(** ** Sample inputs *)

Definition a_job : Job := Scraper.job_of_link 12345 Scraper.link_with_id.

Definition described (body : string) : Result Scraper.DetailDocument :=
  Ok {| Scraper.description_markup := "We build things.";
        Scraper.criteria_items := [("Seniority level", "Mid-Senior level")] |}.

Definition undescribed (body : string) : Result Scraper.DetailDocument :=
  Ok {| Scraper.description_markup := "  "; Scraper.criteria_items := [] |}.

(** The detail page of the job answers 404, respectively 200. *)
Definition not_found : Delivery :=
  {| job := a_job; cancelled := false; net := Utils.always 404 "404 Not Found" |}.

Definition found : Delivery :=
  {| job := a_job; cancelled := false; net := Utils.always 200 "200 OK" |}.

(** The pool of three workers after it was handed no job: the workers
    were started, the input was closed, every worker left its [range] and
    the output was closed. *)
Definition idle_pool_closed : Pool :=
  {| jobChan := []; jobChan_closed := true; unspawned := 0;
     workers := [Exited; Exited; Exited]; wg := 0;
     jobDescriptionChan := []; jobDescriptionChan_closed := true;
     panicked := false |}.

(** [GetJobs]: the scan of ten pages for the query written in the source;
    its error is printed, and the channel is closed when it returns. *)
Definition GetJobs (url_Parse : string -> Result string)
    (listing_cards : string -> Result (list Scraper.Card))
    (s : Scraper.Config) (env : Scraper.Env) : option error * list Scraper.Event :=
  Scraper.ScrapeLinkedInJobsStreaming url_Parse listing_cards s env 10
    {| Keywords := "Frontend Developer"; QueryLocation := "Japan";
       FWT := "2,3"; GeoId := "" |}.

(** ** The orchestrator

    [results] is what the [range] over the output channel receives, in
    order; the two slices are filled in step and handed to the
    repositories. *)
Section Orchestrator.
Variable range_jobMap : gmap Z Job -> list Job.
Variable json_Marshal : gmap string string -> Result string.

Definition ProcessJobsStreaming (results : list JobWithDescription) (db : Repo.DB)
  : option error * Repo.DB :=
  let allJobs := TheJob <$> results in
  let allJobDescriptions := TheDescription <$> results in
  let '(err, db) := Repo.SaveJobs range_jobMap allJobs db in
  match err with
  | Some err => (Some (ErrorfW "failed to save jobs to database: " (Some err)), db)
  | None =>
      let '(err, db) := Repo.SaveJobDescriptions json_Marshal allJobDescriptions db in
      match err with
      | Some err => (Some (ErrorfW "failed to save job descriptions: " (Some err)), db)
      | None => (None, db)
      end
  end.
End Orchestrator.

End Pipeline.

(* ===================================================================== *)
(** * Further sample inputs *)
(* ===================================================================== *)

Module Samples.

(** The request cannot be built. *)
Definition unbuildable : Utils.Env :=
  {| Utils.NewRequestWithContext := Some (LibError "net/http: invalid method");
     Utils.client_Do := fun _ => Utils.DoResp (Utils.response 200 "200 OK");
     Utils.backoff_select := fun _ => Utils.TimerFired |}.

(** The second page of a scan answers 503; the other pages answer 200. *)
Definition failing_second_page : Scraper.Env :=
  {| Scraper.network := fun i =>
       if (i =? 1)%Z then Utils.always 503 "503 Service Unavailable"
       else Utils.always 200 "200 OK";
     Scraper.ctx_done := fun _ => None;
     Scraper.send_select := fun _ _ => None |}.

(** Every page shows the same one card. *)
Definition one_card (body : string) : Result (list Scraper.Card) :=
  Ok [Scraper.card Scraper.link_with_id].

(** A scraper configured with a negative number of retries. *)
Definition no_retries : Scraper.Config :=
  {| Scraper.Timespan := ""; Scraper.Distance := "25"; Scraper.SortBy := "R";
     Scraper.MaxRetries := (-1)%Z; Scraper.BaseDelay := 0%Z;
     Scraper.MaxDelay := 0%Z; Scraper.RequestTimeout := 0%Z |}.

End Samples.

(* ===================================================================== *)
(** * Observations on strings and on scans *)
(* ===================================================================== *)

Module Observe.

Import Models.

(** Every byte is an ASCII digit. *)
Fixpoint all_digits (s : string) : bool :=
  match s with
  | EmptyString => true
  | String c s' => is_digit c && all_digits s'
  end.

(** What follows the digits that [leading_digits] takes. *)
Fixpoint after_digits (s : string) : string :=
  match s with
  | String c s' => if is_digit c then after_digits s' else s
  | EmptyString => EmptyString
  end.

(** The first byte, respectively the last byte, is an ASCII digit. *)
Definition starts_with_digit (s : string) : bool :=
  match s with
  | String c _ => is_digit c
  | EmptyString => false
  end.

Definition ends_with_digit (s : string) : bool :=
  starts_with_digit (String.rev s).

(** The first byte, respectively the last byte, is white space. *)
Definition starts_with_space (s : string) : bool :=
  match s with
  | String c _ => is_space c
  | EmptyString => false
  end.

Definition ends_with_space (s : string) : bool :=
  starts_with_space (String.rev s).

(** The jobs that the fetch of page [i] yields, none when it fails. *)
Definition jobs_of_page (url_Parse : string -> Result string)
    (listing_cards : string -> Result (list Scraper.Card))
    (s : Scraper.Config) (env : Scraper.Env) (params : SearchQuery) (i : Z)
  : list Job :=
  match (Scraper.ScrapeJobsWithContext url_Parse listing_cards s
           (Scraper.network env i) i params).1 with
  | Ok jobs => jobs
  | Err _ => []
  end.

End Observe.

(* ===================================================================== *)
(** * Package pipeline: the rendering of the description *)
(* ===================================================================== *)

Module Markup.

(** The nodes of a parsed document that the description can hold: texts,
    comments and elements with their children, in document order. *)
Inductive Node : Type :=
| TextNode (data : string)
| CommentNode (data : string)
| ElementNode (tag : string) (children : list Node).

(** [goquery.NodeName] *)
Definition NodeName (n : Node) : string :=
  match n with
  | TextNode _ => "#text"
  | CommentNode _ => "#comment"
  | ElementNode tag _ => tag
  end.

(** [Text()] of a node: the data of the text nodes at and below it, in
    document order. *)
Fixpoint Text (n : Node) : string :=
  match n with
  | TextNode data => data
  | CommentNode _ => ""
  | ElementNode _ children =>
      (fix texts (l : list Node) : string :=
         match l with
         | [] => ""
         | c :: l' => Text c +:+ texts l'
         end) children
  end.

(** [Contents()]: the children of a node, texts and comments included. *)
Definition Contents (n : Node) : list Node :=
  match n with
  | ElementNode _ children => children
  | TextNode _ | CommentNode _ => []
  end.

Definition is_element (n : Node) : bool :=
  match n with
  | ElementNode _ _ => true
  | TextNode _ | CommentNode _ => false
  end.

(** [Find("li")]: the [li] elements below a node, in document order. *)
Fixpoint Find_li (n : Node) : list Node :=
  match n with
  | ElementNode _ children =>
      (fix below (l : list Node) : list Node :=
         match l with
         | [] => []
         | c :: l' =>
             (if bool_decide (NodeName c = "li") then [c] else [])
               ++ Find_li c ++ below l'
         end) children
  | TextNode _ | CommentNode _ => []
  end.

Definition newline : string := String (ascii_of_nat 10) "".

Definition one_of (tag : string) (tags : list string) : bool :=
  bool_decide (tag ∈ tags).

(** The bullet line that the [ul] and [ol] case writes for one [li]. *)
Definition bullet_line (li : Node) : string :=
  let liText := TrimSpace (Text li) in
  if bool_decide (liText <> "") then "• " +:+ liText +:+ newline else "".

Fixpoint bullet_lines (lis : list Node) : string :=
  match lis with
  | [] => ""
  | li :: lis' => bullet_line li +:+ bullet_lines lis'
  end.

(** The callback of [Each] in [parseHTMLContent]: what one node of the
    contents adds to the builder. *)
Fixpoint write_node (n : Node) : string :=
  match n with
  | TextNode data => TrimSpace data
  | CommentNode _ | ElementNode _ _ =>
      let tagName := NodeName n in
      let text := TrimSpace (Text n) in
      if bool_decide (text = "") then ""
      else if one_of tagName ["p"] then text +:+ newline +:+ newline
      else if one_of tagName ["h1"; "h2"; "h3"; "h4"; "h5"; "h6"] then
        text +:+ newline +:+ newline
      else if one_of tagName ["strong"; "b"] then "**" +:+ text +:+ "**"
      else if one_of tagName ["em"; "i"] then "*" +:+ text +:+ "*"
      else if one_of tagName ["li"] then "• " +:+ text +:+ newline
      else if one_of tagName ["ul"; "ol"] then bullet_lines (Find_li n) +:+ newline
      else if one_of tagName ["br"] then newline
      else if one_of tagName ["div"; "span"] then
        match n with
        | ElementNode _ children =>
            if existsb is_element children then
              (fix each (l : list Node) : string :=
                 match l with
                 | [] => ""
                 | c :: l' => write_node c +:+ each l'
                 end) children
            else text +:+ " "
        | TextNode _ | CommentNode _ => text +:+ " "
        end
      else text +:+ " "
  end.

Fixpoint write_nodes (l : list Node) : string :=
  match l with
  | [] => ""
  | c :: l' => write_node c +:+ write_nodes l'
  end.

(** [parseHTMLContent] on a selection: the contents of its nodes, written
    one after the other. *)
Definition parseHTMLContent (selection : list Node) : string :=
  write_nodes (mjoin (Contents <$> selection)).

(** The detail document of a page whose description markup is
    [selection]; the markup is rendered when the selection is not empty. *)
Definition detail_of (selection : list Node) (items : list (string * string))
  : Scraper.DetailDocument :=
  {| Scraper.description_markup :=
       if bool_decide (0 < length selection)%nat
       then "" +:+ parseHTMLContent selection else "";
     Scraper.criteria_items := items |}.

(** The text of the node is blank. *)
Definition blank (n : Node) : Prop := TrimSpace (Text n) = "".

(** A description that holds a line break, white space and a comment. *)
Definition empty_markup : list Node :=
  [ElementNode "div" [ElementNode "br" []; TextNode "  "; CommentNode "note"]].

End Markup.

(* ===================================================================== *)
(** * Package repo: the queries *)
(* ===================================================================== *)

Module Queries.

Import Models.

Section Queries.
(** The order in which the server returns the rows of a [SELECT] without
    [ORDER BY]. *)
Variable rows_order : gmap Z Job -> list Job.
(** [json.Unmarshal] into the criteria. *)
Variable json_Unmarshal : string -> Result (gmap string string).

(** [GetAllJobs]: every row of [jobs]; the columns have the types of the
    fields, so [Scan] does not fail. *)
Definition GetAllJobs (db : Repo.DB) : Result (list Job) :=
  match Repo.failure db with
  | Some err => Err (Errorf ("error querying jobs: " +:+ Error err))
  | None => Ok (rows_order (Repo.jobs db))
  end.

(** [GetJobByID]: [sql.ErrNoRows] becomes "job with ID ... not found". *)
Definition GetJobByID (id : Z) (db : Repo.DB) : Result Job :=
  match Repo.failure db with
  | Some err => Err (Errorf ("error querying job: " +:+ Error err))
  | None =>
      match Repo.jobs db !! id with
      | None => Err (Errorf ("job with ID " +:+ Itoa id +:+ " not found"))
      | Some job => Ok job
      end
  end.

(** [GetJobDescriptionByJobID]: no row is not an error; the nil map of Go
    is the empty map here.  The criteria of a stored row are never NULL,
    [SaveJobDescriptions] being the only writer. *)
Definition GetJobDescriptionByJobID (jobID : Z) (db : Repo.DB)
  : Result (string * gmap string string) :=
  match Repo.failure db with
  | Some err => Err (Errorf ("error fetching job description: " +:+ Error err))
  | None =>
      match Repo.job_descriptions db !! jobID with
      | None => Ok ("", ∅)
      | Some (description, criteriaByte) =>
          match json_Unmarshal criteriaByte with
          | Err err => Err (Errorf ("error unmarshaling job criteria: " +:+ Error err))
          | Ok criteria => Ok (description, criteria)
          end
      end
  end.
End Queries.

(** The row that [SaveJobDescriptions] writes for a description, given the
    JSON of its criteria. *)
Definition row_of (encode : gmap string string -> string) (jd : JobDescription)
  : Z * string * string :=
  (JobID jd, Description jd, encode (Criteria jd)).

(** The results carry the identifier of their job in their description,
    as the workers build them. *)
Definition coherent (results : list JobWithDescription) : Prop :=
  Forall (fun r => JobID (TheDescription r) = ID (TheJob r)) results.

(** ** Sample inputs *)

(** A stand-in for [json.Marshal] and [json.Unmarshal] on the criteria:
    the number of entries is all it keeps. *)
Definition count_entries (m : gmap string string) : string :=
  Itoa (Z.of_nat (size m)).

Definition a_result (id : Z) (title description : string) : JobWithDescription :=
  {| TheJob := Repo.titled id title;
     TheDescription := {| JobID := id; Description := description; Criteria := ∅ |} |}.

Definition two_results : list JobWithDescription :=
  [a_result 7 "Frontend Developer" "We build things.";
   a_result 8 "Backend Developer" "We run things."].

(** Two results for one identifier, as two records without identifier
    give. *)
Definition same_id_twice : list JobWithDescription :=
  [a_result 0 "Frontend Developer" "We build things.";
   a_result 0 "Backend Developer" "We run things."].

Definition unreachable_db : Repo.DB :=
  {| Repo.jobs := ∅; Repo.job_descriptions := ∅; Repo.executed := [];
     Repo.failure := Some (LibError "dial tcp: connection refused") |}.

End Queries.

(* ===================================================================== *)
(** * Facts about the transport *)
(* ===================================================================== *)

Section AttemptsFacts.
Import Utils.
Local Open Scope Z_scope.

Variable maxRetries : Z.
Variable delay : Z -> Duration.
Variable env : Env.
Hypothesis request_built : NewRequestWithContext env = None.

(** One iteration of the loop, by the class of its round trip. *)
Lemma attempts_success remaining attempt lastErr resp :
  client_Do env attempt = DoResp resp ->
  is_2xx resp = true ->
  attempts maxRetries delay env (S remaining) attempt lastErr
  = (Ok resp, [EvDo attempt]).
Proof.
  intros Hdo H2. simpl. rewrite request_built, Hdo, H2. reflexivity.
Qed.

Lemma attempts_terminal remaining attempt lastErr :
  spec_class (client_Do env attempt) = Terminal ->
  exists resp,
    client_Do env attempt = DoResp resp /\
    attempts maxRetries delay env (S remaining) attempt lastErr
    = (Err (Errorf ("request failed " +:+ Itoa (StatusCode resp)
                      +:+ ": " +:+ Status resp)),
       [EvDo attempt]).
Proof.
  intros Hc. simpl. rewrite request_built.
  unfold spec_class in Hc.
  destruct (client_Do env attempt) as [err|resp]; [discriminate|].
  exists resp. split; [reflexivity|].
  destruct (is_2xx resp); [discriminate|].
  destruct (StatusCode resp =? 429); [discriminate|reflexivity].
Qed.

Lemma attempts_retryable remaining attempt lastErr :
  spec_class (client_Do env attempt) = Retryable ->
  attempts maxRetries delay env (S remaining) attempt lastErr
  = if attempt <? maxRetries then
      match backoff_select env attempt with
      | CtxDone err => (Err err, [EvDo attempt; EvInterrupted (delay attempt)])
      | TimerFired =>
          let '(r, tr) := attempts maxRetries delay env remaining (attempt + 1)
                            (cause_of (client_Do env attempt)) in
          (r, EvDo attempt :: EvSleep (delay attempt) :: tr)
      end
    else
      let '(r, tr) := attempts maxRetries delay env remaining (attempt + 1)
                        (cause_of (client_Do env attempt)) in
      (r, EvDo attempt :: tr).
Proof.
  intros Hc. simpl. rewrite request_built.
  unfold spec_class in Hc.
  destruct (client_Do env attempt) as [err|resp]; [reflexivity|].
  destruct (is_2xx resp); [discriminate|].
  destruct (StatusCode resp =? 429); [reflexivity|discriminate].
Qed.

(** Every iteration that is entered starts with a round trip. *)
Lemma attempts_starts_with_request remaining attempt lastErr :
  exists tr,
    (attempts maxRetries delay env (S remaining) attempt lastErr).2
    = EvDo attempt :: tr.
Proof.
  simpl. rewrite request_built.
  assert (Hretry : forall cause, exists tr,
    (if attempt <? maxRetries then
       match backoff_select env attempt with
       | CtxDone err => (Err err, [EvDo attempt; EvInterrupted (delay attempt)])
       | TimerFired =>
           let '(r, tr) := attempts maxRetries delay env remaining (attempt + 1) cause in
           (r, EvDo attempt :: EvSleep (delay attempt) :: tr)
       end
     else
       let '(r, tr) := attempts maxRetries delay env remaining (attempt + 1) cause in
       (r, EvDo attempt :: tr)).2 = EvDo attempt :: tr).
  { intros cause.
    destruct (attempts maxRetries delay env remaining (attempt + 1) cause) as [r tr].
    destruct (attempt <? maxRetries); [destruct (backoff_select env attempt)|];
      simpl; eauto. }
  destruct (client_Do env attempt) as [err|resp]; [apply Hretry|].
  destruct (is_2xx resp); [simpl; eauto|].
  destruct (StatusCode resp =? 429); [apply Hretry|simpl; eauto].
Qed.

(** [n] attempts in a row that are retryable, below the bound, and whose
    waits run to their end, leave the loop [n] iterations further. *)
Lemma attempts_retried (n : nat) :
  forall (remaining : nat) (from : Z) (lastErr : option error),
    from + Z.of_nat n <= maxRetries ->
    (forall i, from <= i < from + Z.of_nat n ->
               spec_class (client_Do env i) = Retryable /\
               backoff_select env i = TimerFired) ->
    attempts maxRetries delay env (n + remaining) from lastErr
    = let '(r, tr) := attempts maxRetries delay env remaining
                        (from + Z.of_nat n) (last_cause env lastErr n from) in
      (r, retried delay n from ++ tr).
Proof.
  induction n as [|n IH]; intros remaining from lastErr Hle Hall.
  - cbn [last_cause retried Nat.add]. rewrite Z.add_0_r.
    destruct (attempts _ _ _ _ _ _); reflexivity.
  - assert (from <= from < from + Z.of_nat (S n)) as Hfrom by lia.
    destruct (Hall from Hfrom) as [Hc Ht].
    change (S n + remaining)%nat with (S (n + remaining)).
    rewrite (attempts_retryable _ _ _ Hc).
    assert ((from <? maxRetries) = true) as -> by (apply Z.ltb_lt; lia).
    rewrite Ht.
    rewrite (IH remaining (from + 1) _) by (try (intros; apply Hall); lia).
    replace (from + 1 + Z.of_nat n) with (from + Z.of_nat (S n)) by lia.
    assert (last_cause env (cause_of (client_Do env from)) n (from + 1)
            = last_cause env lastErr (S n) from) as ->.
    { destruct n as [|n']; cbn [last_cause].
      - f_equal. f_equal. lia.
      - f_equal. f_equal. lia. }
    destruct (attempts _ _ _ _ _ _); reflexivity.
Qed.

End AttemptsFacts.

Section TransportFacts.
Import Utils.
Local Open Scope Z_scope.

(** The state of the loop when attempt [k] is reached after [k] retried
    attempts. *)
Lemma attempts_reach (maxRetries : Z) (delay : Z -> Duration) (env : Env) (k : Z) :
  NewRequestWithContext env = None ->
  0 <= k <= maxRetries ->
  retried_before env k ->
  attempts maxRetries delay env (Z.to_nat (maxRetries + 1)) 0 None
  = let '(r, tr) := attempts maxRetries delay env (S (Z.to_nat (maxRetries - k))) k
                      (last_cause env None (Z.to_nat k) 0) in
    (r, retried delay (Z.to_nat k) 0 ++ tr).
Proof.
  intros Hreq Hk Hbefore.
  replace (Z.to_nat (maxRetries + 1))
    with (Z.to_nat k + S (Z.to_nat (maxRetries - k)))%nat by lia.
  rewrite (attempts_retried maxRetries delay env Hreq (Z.to_nat k)).
  - replace (0 + Z.of_nat (Z.to_nat k)) with k by lia. reflexivity.
  - lia.
  - intros i Hi. apply Hbefore. lia.
Qed.

Lemma attempts_classified (maxRetries : Z) (delay : Z -> Duration) (env : Env) (k : Z) :
  NewRequestWithContext env = None ->
  0 <= k <= maxRetries ->
  retried_before env k ->
  classified maxRetries delay env k
    (attempts maxRetries delay env (Z.to_nat (maxRetries + 1)) 0 None).
Proof.
  intros Hreq Hk Hbefore.
  rewrite (attempts_reach maxRetries delay env k Hreq Hk Hbefore).
  unfold classified.
  destruct (spec_class (client_Do env k)) eqn:Hc.
  - unfold spec_class in Hc.
    destruct (client_Do env k) as [err|resp] eqn:Hdo; [discriminate|].
    destruct (is_2xx resp) eqn:H2.
    + exists resp. split; [reflexivity|].
      rewrite (attempts_success maxRetries delay env Hreq _ _ _ _ Hdo H2).
      reflexivity.
    + destruct (StatusCode resp =? 429); discriminate.
  - rewrite (attempts_retryable maxRetries delay env Hreq _ _ _ Hc).
    destruct (k <? maxRetries) eqn:Hlt.
    + intros ->.
      apply Z.ltb_lt in Hlt.
      replace (Z.to_nat (maxRetries - k)) with (S (Z.to_nat (maxRetries - k - 1))) by lia.
      destruct (attempts_starts_with_request maxRetries delay env Hreq
                  (Z.to_nat (maxRetries - k - 1)) (k + 1)
                  (cause_of (client_Do env k))) as [tr Htr].
      destruct (attempts _ _ _ _ _ _) as [r tr']. simpl in Htr. subst tr'.
      exists tr. reflexivity.
    + apply Z.ltb_ge in Hlt.
      replace (Z.to_nat (maxRetries - k)) with 0%nat by lia.
      reflexivity.
  - destruct (attempts_terminal maxRetries delay env Hreq
                (Z.to_nat (maxRetries - k)) k
                (last_cause env None (Z.to_nat k) 0) Hc) as (resp & Hdo & ->).
    exists resp. split; [exact Hdo | reflexivity].
Qed.

(** C1.  In both versions of the transport, the attempt that is reached
    after [k] retried attempts is treated by its class: a 2xx response is
    returned at once; any other status but 429 returns an error at once,
    and in both cases that round trip is the last event of the call, so a
    terminal first attempt gives one request and no delay; a failed round
    trip or a 429 is followed by the backoff delay and by attempt
    [k + 1] when an attempt is left, and by the exhaustion error when
    none is. *)
Theorem attempt_outcome_is_classified (config : RetryConfig) (env : Env) (k : Z) :
  NewRequestWithContext env = None ->
  0 <= k ->
  retried_before env k ->
  (k <= MaxRetries config ->
   classified (MaxRetries config) Impl.delay env k
     (Impl.RetryableHTTPRequest config env)) /\
  (k <= 3 ->
   classified 3 delay env k (RetryableHTTPRequest env)).
Proof.
  intros Hreq Hk Hbefore. split; intros Hle.
  - apply attempts_classified; [assumption|lia|assumption].
  - apply (attempts_classified 3 delay env k); [assumption|lia|assumption].
Qed.

Lemma attempt_outcome_is_classified_witness :
  NewRequestWithContext (always 404 "404 Not Found") = None /\
  retried_before (always 404 "404 Not Found") 0 /\
  classified 3 Impl.delay (always 404 "404 Not Found") 0
    (Impl.RetryableHTTPRequest default_config (always 404 "404 Not Found")) /\
  classified 3 delay (always 404 "404 Not Found") 0
    (RetryableHTTPRequest (always 404 "404 Not Found")).
Proof.
  assert (Hb : retried_before (always 404 "404 Not Found") 0)
    by (intros i Hi; lia).
  split; [reflexivity|]. split; [exact Hb|].
  pose proof (attempt_outcome_is_classified default_config
                (always 404 "404 Not Found") 0 eq_refl (Z.le_refl 0) Hb) as [H1 H2].
  split; [apply H1; simpl; lia | apply H2; lia].
Defined.

Lemma requests_retried (d : Z -> Duration) (n : nat) (from : Z) (tr : list Event) :
  requests (retried d n from ++ tr) = (n + requests tr)%nat.
Proof.
  revert from. induction n as [|n IH]; intros from; [reflexivity|].
  unfold requests in *. simpl. rewrite IH. reflexivity.
Qed.

Lemma delays_retried (d : Z -> Duration) (n : nat) (from : Z) (tr : list Event) :
  length (delays (retried d n from ++ tr)) = (n + length (delays tr))%nat.
Proof.
  revert from. induction n as [|n IH]; intros from; [reflexivity|].
  unfold delays in *. simpl. rewrite IH. reflexivity.
Qed.

(** C8.  When the context is done during the wait that follows the
    retryable attempt [k], the call returns the context's error, the wait
    is cut short, and no round trip follows: the interrupted wait is the
    last event of the call. *)
Theorem cancelled_backoff_returns_at_once
    (config : RetryConfig) (env : Env) (k : Z) (err : error) :
  NewRequestWithContext env = None ->
  0 <= k ->
  retried_before env k ->
  spec_class (client_Do env k) = Retryable ->
  backoff_select env k = CtxDone err ->
  (k < MaxRetries config ->
   Impl.RetryableHTTPRequest config env
   = (Err err, retried Impl.delay (Z.to_nat k) 0
                 ++ [EvDo k; EvInterrupted (Impl.delay k)])) /\
  (k < 3 ->
   RetryableHTTPRequest env
   = (Err err, retried delay (Z.to_nat k) 0 ++ [EvDo k; EvInterrupted (delay k)])).
Proof.
  intros Hreq Hk Hbefore Hc Hsel.
  assert (Hgen : forall maxRetries d, k < maxRetries ->
    attempts maxRetries d env (Z.to_nat (maxRetries + 1)) 0 None
    = (Err err, retried d (Z.to_nat k) 0 ++ [EvDo k; EvInterrupted (d k)])).
  { intros maxRetries d Hlt.
    rewrite (attempts_reach maxRetries d env k Hreq) by (lia || assumption).
    rewrite (attempts_retryable maxRetries d env Hreq _ _ _ Hc).
    assert ((k <? maxRetries) = true) as -> by (apply Z.ltb_lt; lia).
    rewrite Hsel. reflexivity. }
  split; intros Hlt; apply Hgen; assumption.
Qed.

Lemma cancelled_backoff_returns_at_once_witness :
  Impl.RetryableHTTPRequest default_config cancelled_in_backoff
  = (Err Canceled, [EvDo 0; EvInterrupted (2 * Second)]) /\
  RetryableHTTPRequest cancelled_in_backoff
  = (Err Canceled, [EvDo 0; EvInterrupted (1 * Second)]).
Proof.
  assert (Hb : retried_before cancelled_in_backoff 0) by (intros i Hi; lia).
  pose proof (cancelled_backoff_returns_at_once default_config
                cancelled_in_backoff 0 Canceled eq_refl (Z.le_refl 0) Hb
                eq_refl eq_refl) as [H1 H2].
  split; [apply H1; simpl; lia | apply H2; lia].
Defined.

(** C6, as amended.  A call whose attempts are all retryable returns,
    after [MaxRetries + 1] round trips (4 in the free function), the error
    "all retry attempts failed, last error: ..." that wraps the cause of
    the last attempt; the error holds nothing else. *)
Theorem exhaustion_wraps_last_cause (config : RetryConfig) (env : Env) :
  NewRequestWithContext env = None ->
  (0 <= MaxRetries config ->
   retried_before env (MaxRetries config) ->
   spec_class (client_Do env (MaxRetries config)) = Retryable ->
   exists tr,
     Impl.RetryableHTTPRequest config env
     = (Err (exhaustion_error (cause_of (client_Do env (MaxRetries config)))), tr) /\
     Unwrap (exhaustion_error (cause_of (client_Do env (MaxRetries config))))
     = cause_of (client_Do env (MaxRetries config)) /\
     requests tr = Z.to_nat (MaxRetries config + 1)) /\
  (retried_before env 3 ->
   spec_class (client_Do env 3) = Retryable ->
   exists tr,
     RetryableHTTPRequest env = (Err (exhaustion_error (cause_of (client_Do env 3))), tr) /\
     Unwrap (exhaustion_error (cause_of (client_Do env 3)))
     = cause_of (client_Do env 3) /\
     requests tr = 4%nat).
Proof.
  intros Hreq.
  assert (Hgen : forall maxRetries d, 0 <= maxRetries ->
    retried_before env maxRetries ->
    spec_class (client_Do env maxRetries) = Retryable ->
    exists tr,
      attempts maxRetries d env (Z.to_nat (maxRetries + 1)) 0 None
      = (Err (exhaustion_error (cause_of (client_Do env maxRetries))), tr) /\
      requests tr = Z.to_nat (maxRetries + 1)).
  { intros maxRetries d Hle Hbefore Hc.
    pose proof (attempts_classified maxRetries d env maxRetries Hreq
                  ltac:(lia) Hbefore) as Hcl.
    unfold classified in Hcl. rewrite Hc, Z.ltb_irrefl in Hcl.
    eexists. split; [exact Hcl|].
    rewrite requests_retried. unfold requests. simpl. lia. }
  split.
  - intros Hle Hbefore Hc.
    destruct (Hgen (MaxRetries config) Impl.delay Hle Hbefore Hc) as (tr & Hrun & Hn).
    exists tr. repeat split; assumption.
  - intros Hbefore Hc.
    destruct (Hgen 3 delay ltac:(lia) Hbefore Hc) as (tr & Hrun & Hn).
    exists tr. repeat split; assumption.
Qed.

Lemma exhaustion_wraps_last_cause_witness :
  exists tr,
    Impl.RetryableHTTPRequest (retries 1) refused
    = (Err (exhaustion_error (Some (LibError "dial tcp: connection refused"))), tr) /\
    requests tr = 2%nat.
Proof.
  assert (Hb : retried_before refused 1) by (intros i Hi; split; reflexivity).
  destruct (exhaustion_wraps_last_cause (retries 1) refused eq_refl) as [H _].
  destruct (H ltac:(simpl; lia) Hb eq_refl) as (tr & Hrun & _ & Hn).
  exists tr. split; [exact Hrun | exact Hn].
Defined.

(** C6, as stated, fails: with the connection refused at every attempt, a
    call with one attempt and a call with two attempts return the same
    error value, so no function of the error gives the number of
    attempts. *)
Lemma exhaustion_error_forgets_attempt_count :
  (Impl.RetryableHTTPRequest (retries 0) refused).1
  = (Impl.RetryableHTTPRequest (retries 1) refused).1 /\
  requests (Impl.RetryableHTTPRequest (retries 0) refused).2 = 1%nat /\
  requests (Impl.RetryableHTTPRequest (retries 1) refused).2 = 2%nat /\
  ~ error_keeps_attempt_count.
Proof.
  split; [reflexivity|]. split; [reflexivity|]. split; [reflexivity|].
  intros [count Hcount].
  pose proof (Hcount (retries 0) refused
                (Some (LibError "dial tcp: connection refused")) _ eq_refl) as H0.
  pose proof (Hcount (retries 1) refused
                (Some (LibError "dial tcp: connection refused")) _ eq_refl) as H1.
  rewrite H0 in H1. discriminate H1.
Qed.

(** C5, on the code.  The method of [RetryableHTTPRequestImpl] waits two
    seconds after the 429 of [limited_once] although the configuration
    caps the delay at one second; more generally its run does not depend
    on [BaseDelay] and [MaxDelay] at all.  The free function takes no
    configuration: its delays are 1s, 2s, 4s whatever the caller
    configured. *)
Theorem configured_delays_are_ignored :
  delays (Impl.RetryableHTTPRequest short_delays limited_once).2 = [2 * Second] /\
  MaxDelay short_delays < 2 * Second /\
  (forall (n base base' cap cap' : Z) (env : Env),
      Impl.RetryableHTTPRequest
        {| MaxRetries := n; BaseDelay := base; MaxDelay := cap |} env
      = Impl.RetryableHTTPRequest
          {| MaxRetries := n; BaseDelay := base'; MaxDelay := cap' |} env) /\
  delays (RetryableHTTPRequest refused).2 = [1 * Second; 2 * Second; 4 * Second].
Proof.
  split; [reflexivity|]. split; [reflexivity|]. split; [|reflexivity].
  intros. reflexivity.
Qed.

End TransportFacts.

(* ===================================================================== *)
(** * Facts about the listing scanner *)
(* ===================================================================== *)

Section ScannerFacts.
Import Models Scraper.
Local Open Scope Z_scope.

Variable url_Parse : string -> Result string.
Variable listing_cards : string -> Result (list Card).

Lemma wrap64_small (z : Z) : - 2 ^ 63 <= z < 2 ^ 63 -> wrap64 z = z.
Proof.
  intros Hz. unfold wrap64. rewrite Z.mod_small by lia. lia.
Qed.

Lemma searchParams_start (query : SearchQuery) (page : Z) :
  searchParams query page !! "start" = Some (Itoa (wrap64 (25 * page))).
Proof.
  unfold searchParams. apply lookup_insert_eq.
Qed.

Lemma send_jobs_all (env : Env) (page : Z) (jobs : list Job) :
  never_cancelled env ->
  forall k, send_jobs env page k jobs = (None, EvSend <$> jobs).
Proof.
  intros [_ Hsend]. induction jobs as [|job jobs IH]; intros k; simpl.
  - reflexivity.
  - rewrite Hsend, IH. reflexivity.
Qed.

Lemma fetched_sends (jobs : list Job) (tr : list Event) :
  fetched ((EvSend <$> jobs) ++ tr) = fetched tr.
Proof.
  induction jobs as [|job jobs IH]; simpl; [reflexivity|exact IH].
Qed.

Lemma fetched_fetch (url : string) (transport : list Utils.Event) (tr : list Event) :
  fetched (EvFetch url transport :: tr) = url :: fetched tr.
Proof. reflexivity. Qed.

Lemma sent_sends (jobs : list Job) (tr : list Event) :
  sent ((EvSend <$> jobs) ++ tr) = jobs ++ sent tr.
Proof.
  induction jobs as [|job jobs IH]; [reflexivity|].
  unfold sent in *. cbn. f_equal. exact IH.
Qed.

(** A page without failure: the fetch event carries the URL of the page. *)
Lemma ScrapeJobsWithContext_fetched (s : Config) (env : Env) (i : Z)
    (params : SearchQuery) :
  page_fetched listing_cards s env i ->
  exists jobs tr,
    ScrapeJobsWithContext url_Parse listing_cards s (network env i) i params
    = (Ok jobs, EvFetch (buildSearchURL params i) tr).
Proof.
  intros (res & cards & Hres & Hcards).
  unfold ScrapeJobsWithContext.
  destruct (Utils.Impl.RetryableHTTPRequest (retryConfig s) (network env i))
    as [r tr] eqn:Hrun.
  simpl in Hres. subst r. rewrite Hcards. eauto.
Qed.

Lemma scan_pages_fetched (s : Config) (env : Env) (params : SearchQuery)
    (pages : list Z) :
  never_cancelled env ->
  (forall i, i ∈ pages -> page_fetched listing_cards s env i) ->
  (scan_pages url_Parse listing_cards s env params pages).1 = None /\
  fetched (scan_pages url_Parse listing_cards s env params pages).2
  = buildSearchURL params <$> pages.
Proof.
  intros Hquiet. induction pages as [|i pages IH]; intros Hpages.
  - split; reflexivity.
  - cbn [scan_pages].
    rewrite (proj1 Hquiet i).
    destruct (ScrapeJobsWithContext_fetched s env i params) as (jobs & tr & ->).
    { apply Hpages. left. }
    rewrite (send_jobs_all env i jobs Hquiet 0%nat).
    destruct IH as [IH1 IH2].
    { intros j Hj. apply Hpages. right. exact Hj. }
    destruct (scan_pages url_Parse listing_cards s env params pages) as [err rest].
    simpl in IH1, IH2. subst err. split; [reflexivity|].
    cbn [snd]. rewrite fetched_fetch, fetched_sends, IH2. reflexivity.
Qed.

(** C2.  With no failure on any page and a context that is not cancelled,
    the scan of [N] pages fetches exactly [N] listing URLs, those of the
    pages 0, 1, ..., N-1 in that order, returns no error, and the URL of
    page [i] is built from parameters whose "start" is 25 times [i]. *)
Theorem scan_requests_every_page_in_order
    (s : Config) (env : Env) (N : Z) (query : SearchQuery) :
  0 <= N ->
  25 * N <= MaxInt64 ->
  never_cancelled env ->
  (forall i, 0 <= i < N -> page_fetched listing_cards s env i) ->
  (ScrapeLinkedInJobsStreaming url_Parse listing_cards s env N query).1 = None /\
  fetched (ScrapeLinkedInJobsStreaming url_Parse listing_cards s env N query).2
  = (fun i => buildSearchURL query i) <$> range N /\
  length (fetched (ScrapeLinkedInJobsStreaming url_Parse listing_cards s env N query).2)
  = Z.to_nat N /\
  (forall i, 0 <= i < N ->
     buildSearchURL query i = baseURL +:+ "?" +:+ Encode (searchParams query i) /\
     searchParams query i !! "start" = Some (Itoa (25 * i))).
Proof.
  intros HN Hmax Hquiet Hpages.
  unfold ScrapeLinkedInJobsStreaming.
  destruct (scan_pages_fetched s env query (range N) Hquiet) as [Herr Hurls].
  { intros i Hi. apply Hpages. unfold range in Hi.
    apply list_elem_of_fmap in Hi as (n & -> & Hn).
    apply elem_of_seq in Hn. lia. }
  split; [exact Herr|]. split; [exact Hurls|]. split.
  - rewrite Hurls. unfold range. rewrite !length_fmap, length_seq. reflexivity.
  - intros i Hi. split; [reflexivity|].
    rewrite searchParams_start, wrap64_small; [reflexivity|].
    unfold MaxInt64 in Hmax. lia.
Qed.

(** The identifier is the run of digits that ends the last segment of the
    path, when there is one. *)
Lemma extractJobIDFromURL_digits (link path : string) :
  url_Parse link = Ok path ->
  trailing_digits (Base path) <> "" ->
  extractJobIDFromURL url_Parse link = (trailing_digits (Base path), None).
Proof.
  intros Hparse Hrun. unfold extractJobIDFromURL, FindStringSubmatch_digits_at_end.
  rewrite Hparse. rewrite bool_decide_eq_false_2 by exact Hrun. reflexivity.
Qed.

(** Without such a run, or without a path, the identifier is empty. *)
Lemma extractJobIDFromURL_error (link : string) :
  (extractJobIDFromURL url_Parse link).2 <> None ->
  (extractJobIDFromURL url_Parse link).1 = "".
Proof.
  unfold extractJobIDFromURL, FindStringSubmatch_digits_at_end.
  destruct (url_Parse link) as [path|err]; [|reflexivity].
  destruct (bool_decide (trailing_digits (Base path) = "")); [reflexivity|].
  intros H. contradiction H. reflexivity.
Qed.

(** A card whose identifier cannot be extracted gives a job with the
    identifier 0, and whether the job is kept depends on its four texts
    only. *)
Lemma job_of_card_without_id (c : Card) :
  (extractJobIDFromURL url_Parse (TrimSpace (link_href c))).2 <> None ->
  ID (job_of_card url_Parse c).1 = 0 /\
  (job_of_card url_Parse c).2
  = bool_decide (TrimSpace (title_text c) <> "")
    && bool_decide (TrimSpace (company_text c) <> "")
    && bool_decide (TrimSpace (location_text c) <> "")
    && bool_decide (TrimSpace (link_href c) <> "").
Proof.
  intros Herr. apply extractJobIDFromURL_error in Herr.
  unfold job_of_card.
  destruct (extractJobIDFromURL url_Parse (TrimSpace (link_href c))) as [jobId err].
  simpl in Herr. subst jobId. split; reflexivity.
Qed.

End ScannerFacts.

Local Open Scope Z_scope.

Lemma scan_requests_every_page_in_order_witness :
  Scraper.fetched (Scraper.ScrapeLinkedInJobsStreaming Parse_Path
             (fun _ => Ok [Scraper.card Scraper.link_with_id])
             Scraper.defaults Scraper.quiet 3 Scraper.frontend_japan).2
  = (fun i => Scraper.buildSearchURL Scraper.frontend_japan i) <$> range 3 /\
  Scraper.searchParams Scraper.frontend_japan 2 !! "start" = Some "50".
Proof.
  destruct (scan_requests_every_page_in_order Parse_Path
              (fun _ => Ok [Scraper.card Scraper.link_with_id])
              Scraper.defaults Scraper.quiet 3 Scraper.frontend_japan)
    as (_ & Hurls & _ & Hstart).
  - lia.
  - unfold MaxInt64. lia.
  - split; reflexivity.
  - intros i Hi. eexists _, _. split; reflexivity.
  - split; [exact Hurls|]. apply (Hstart 2%Z). lia.
Defined.

(** A page count that is not positive gives no request. *)
Lemma scan_of_no_page (url_Parse : string -> Result string)
    (listing_cards : string -> Result (list Scraper.Card))
    (s : Scraper.Config) (env : Scraper.Env) (N : Z) (query : Models.SearchQuery) :
  N <= 0 ->
  Scraper.ScrapeLinkedInJobsStreaming url_Parse listing_cards s env N query = (None, []).
Proof.
  intros HN. unfold Scraper.ScrapeLinkedInJobsStreaming, range.
  replace (Z.to_nat N) with 0%nat by lia. reflexivity.
Qed.

(** A context that is cancelled ends the scan before the next page, with
    the error of the context. *)
Example scan_cancelled_after_first_page :
  (Scraper.ScrapeLinkedInJobsStreaming Parse_Path
     (fun _ => Ok [Scraper.card Scraper.link_with_id])
     Scraper.defaults Scraper.cancelled_after_first_page 3 Scraper.frontend_japan).1
  = Some Canceled /\
  Scraper.fetched
    (Scraper.ScrapeLinkedInJobsStreaming Parse_Path
       (fun _ => Ok [Scraper.card Scraper.link_with_id])
       Scraper.defaults Scraper.cancelled_after_first_page 3 Scraper.frontend_japan).2
  = [Scraper.buildSearchURL Scraper.frontend_japan 0].
Proof. vm_compute. split; reflexivity. Qed.

(** The URLs of the first pages of the query of [GetJobs]. *)
Example buildSearchURL_frontend_japan :
  Scraper.buildSearchURL Scraper.frontend_japan <$> range 2
  = [ Scraper.baseURL +:+ "?f_WT=2%2C3&keywords=Frontend%2BDeveloper&location=Japan&start=0";
      Scraper.baseURL +:+ "?f_WT=2%2C3&keywords=Frontend%2BDeveloper&location=Japan&start=25" ].
Proof. vm_compute. reflexivity. Qed.

(** The identifier of a link that ends in a run of digits. *)
Example extractJobIDFromURL_12345 :
  Scraper.extractJobIDFromURL Parse_Path Scraper.link_with_id = ("12345", None) /\
  Scraper.jobs_of_cards Parse_Path [Scraper.card Scraper.link_with_id]
  = [Scraper.job_of_link 12345 Scraper.link_with_id].
Proof. vm_compute. split; reflexivity. Qed.

(** C3, on the code.  The link [link_without_id] has no run of digits at
    its end: the extraction of the identifier fails, and yet the record is
    kept, with the identifier 0, and the scan sends it to the channel. *)
Theorem record_without_identifier_is_sent :
  Scraper.extractJobIDFromURL Parse_Path Scraper.link_without_id
  = ("", Some (Errorf ("job ID not found in URL path: " +:+ Scraper.link_without_id))) /\
  Scraper.jobs_of_cards Parse_Path [Scraper.card Scraper.link_without_id]
  = [Scraper.job_of_link 0 Scraper.link_without_id] /\
  Scraper.sent (Scraper.ScrapeLinkedInJobsStreaming Parse_Path
                  (fun _ => Ok [Scraper.card Scraper.link_without_id])
                  Scraper.defaults Scraper.quiet 1 Scraper.frontend_japan).2
  = [Scraper.job_of_link 0 Scraper.link_without_id].
Proof. vm_compute. repeat split; reflexivity. Qed.

(* ===================================================================== *)
(** * Facts about the workers *)
(* ===================================================================== *)

Section WorkerFacts.
Import Models Pipeline.

Variable detail_document : string -> Result Scraper.DetailDocument.
Variable s : Scraper.Config.

Lemma on_receive_failure (d : Delivery) (err : error) :
  cancelled d = false ->
  scrape detail_document s (net d) (job d) = Err err ->
  on_receive detail_document s d = Ranging.
Proof.
  intros Hc Hs. unfold on_receive. rewrite Hc, Hs. reflexivity.
Qed.

Lemma worker_sends_skip (d : Delivery) (before after : list Delivery) :
  on_receive detail_document s d = Ranging ->
  worker_sends detail_document s (before ++ d :: after)
  = worker_sends detail_document s (before ++ after).
Proof.
  intros Hd. induction before as [|b before IH]; simpl.
  - rewrite Hd. reflexivity.
  - destruct (on_receive detail_document s b); [exact IH | f_equal; exact IH | reflexivity].
Qed.

(** C4, as amended.  A fetch that fails (in the transport, in the reading
    of the document or for want of a description) does not end the worker.
    In [GetJobDescription] the worker is back at its [range] and nothing is
    sent for the record: what it sends is what it would send had the record
    not been delivered.  In [jobDescriptionWorker] the record is sent with
    the error in its [Error] field, and the worker goes on with the
    deliveries that follow. *)
Theorem failed_fetch_does_not_end_worker (d : Delivery) (err : error) :
  cancelled d = false ->
  scrape detail_document s (net d) (job d) = Err err ->
  on_receive detail_document s d = Ranging /\
  (forall before after,
      worker_sends detail_document s (before ++ d :: after)
      = worker_sends detail_document s (before ++ after)) /\
  (forall after,
      jobDescriptionWorker detail_document s
        ({| delivery := d; limiter_Wait := None; send_cancelled := false |} :: after)
      = {| ResultJob := job d; ResultDescription := ""; ResultCriteria := ∅;
           ResultError := Some err |}
          :: jobDescriptionWorker detail_document s after).
Proof.
  intros Hc Hs.
  pose proof (on_receive_failure d err Hc Hs) as Hr.
  split; [exact Hr|]. split.
  - intros before after. apply worker_sends_skip. exact Hr.
  - intros after. simpl. rewrite Hc, Hs. reflexivity.
Qed.

End WorkerFacts.

Lemma failed_fetch_does_not_end_worker_witness :
  Pipeline.worker_sends Pipeline.described Scraper.defaults
    [Pipeline.not_found; Pipeline.found]
  = Pipeline.worker_sends Pipeline.described Scraper.defaults [Pipeline.found] /\
  Pipeline.ResultError
    <$> Pipeline.jobDescriptionWorker Pipeline.described Scraper.defaults
          [ {| Pipeline.delivery := Pipeline.not_found;
               Pipeline.limiter_Wait := None; Pipeline.send_cancelled := false |} ]
  = [Some (Errorf "request failed 404: 404 Not Found")].
Proof.
  destruct (failed_fetch_does_not_end_worker Pipeline.described Scraper.defaults
              Pipeline.not_found (Errorf "request failed 404: 404 Not Found")
              eq_refl eq_refl) as (_ & Hskip & Hsent).
  split.
  - exact (Hskip [] [Pipeline.found]).
  - rewrite Hsent. reflexivity.
Defined.

(** A page without description is a failure of the same kind. *)
Example scrape_without_description :
  Pipeline.scrape Pipeline.undescribed Scraper.defaults
    (Utils.always 200 "200 OK") Pipeline.a_job
  = Err (Errorf "job description not found").
Proof. vm_compute. reflexivity. Qed.

(** C4, as stated, fails: the worker of [GetJobDescription] that is handed
    a job whose detail page answers 404 sends nothing, so no result, failed
    or not, reaches the output channel for that record. *)
Lemma failed_fetch_sends_nothing :
  Pipeline.worker_sends Pipeline.described Scraper.defaults [Pipeline.not_found] = [] /\
  ~ Pipeline.failure_is_sent.
Proof.
  split; [vm_compute; reflexivity|].
  intros Hclaim.
  destruct (Hclaim Pipeline.described Scraper.defaults Pipeline.not_found
              (Errorf "request failed 404: 404 Not Found") eq_refl eq_refl)
    as (result & Hin & _).
  vm_compute in Hin. inversion Hin.
Qed.

(* ===================================================================== *)
(** * Facts about the pool *)
(* ===================================================================== *)

Section PoolFacts.
Import Models Pipeline.

Variable detail_document : string -> Result Scraper.DetailDocument.
Variable s : Scraper.Config.

Abbreviation step := (Pipeline.step detail_document s).
Abbreviation reachable := (Pipeline.reachable detail_document s).
Abbreviation on_receive := (Pipeline.on_receive detail_document s).

Lemma sum_list_fmap_insert {A : Type} (f : A -> nat) (ws : list A) (i : nat) (w w' : A) :
  ws !! i = Some w ->
  (sum_list (f <$> <[i := w']> ws) + f w = sum_list (f <$> ws) + f w')%nat.
Proof.
  revert i. induction ws as [|x ws IH]; intros i Hi; [discriminate|].
  destruct i as [|i]; simpl in *.
  - injection Hi as ->. lia.
  - specialize (IH i Hi). unfold fmap in *. lia.
Qed.

Lemma sum_list_fmap_snoc {A : Type} (f : A -> nat) (ws : list A) (w : A) :
  sum_list (f <$> ws ++ [w]) = (sum_list (f <$> ws) + f w)%nat.
Proof.
  rewrite fmap_app, sum_list_with_app. simpl. lia.
Qed.

Lemma live_lookup (ws : list Worker) (i : nat) (w : Worker) :
  ws !! i = Some w -> is_live w = true -> (0 < live ws)%nat.
Proof.
  unfold live. revert i.
  induction ws as [|x ws IH]; intros [|i] Hi Hw; try discriminate; simpl in *.
  - injection Hi as ->. rewrite Hw. lia.
  - specialize (IH i Hi Hw). unfold fmap in *. lia.
Qed.

Lemma live_none (ws : list Worker) :
  live ws = 0%nat -> Forall (fun w => w = Exited) ws.
Proof.
  unfold live. induction ws as [|w ws IH]; intros H; [constructor|].
  simpl in H. destruct w; simpl in H; try lia.
  constructor; [reflexivity|]. apply IH. exact H.
Qed.

(** Either every worker has returned or one has not. *)
Lemma live_worker (ws : list Worker) :
  Forall (fun w => w = Exited) ws \/
  exists i w, ws !! i = Some w /\ is_live w = true.
Proof.
  induction ws as [|w ws [IH|(i & w' & Hi & Hw)]].
  - left. constructor.
  - destruct w.
    + right. exists 0%nat, Ranging. split; reflexivity.
    + right. exists 0%nat, (Sending result). split; reflexivity.
    + left. constructor; [reflexivity|exact IH].
  - right. exists (S i), w'. split; assumption.
Qed.

(** The bookkeeping of the number of live workers when the worker [i]
    changes its state. *)
Lemma live_insert (ws : list Worker) (i : nat) (w w' : Worker) :
  ws !! i = Some w ->
  (live (<[i := w']> ws) + (if is_live w then 1 else 0)
   = live ws + (if is_live w' then 1 else 0))%nat.
Proof.
  intros Hi. unfold live.
  apply (sum_list_fmap_insert (fun w => if is_live w then 1%nat else 0%nat) ws i w w' Hi).
Qed.

Lemma live_snoc (ws : list Worker) (w : Worker) :
  live (ws ++ [w]) = (live ws + (if is_live w then 1 else 0))%nat.
Proof. apply sum_list_fmap_snoc. Qed.

Ltac pool_invariant_case Hclosed :=
  unfold pool_invariant;
  cbn [wg workers unspawned jobDescriptionChan_closed panicked];
  split; [|split; [|split]];
  try assumption;
  try (let Hc := fresh "Hc" in
       intros Hc; destruct (Hclosed Hc) as [? ?]; split; lia);
  try lia.

Lemma pool_invariant_step (n : nat) (p p' : Pool) :
  pool_invariant n p -> step p p' -> pool_invariant n p'.
Proof.
  intros (Hwg & Hlen & Hclosed & Hpanic) Hstep.
  destruct Hstep as [p k Hk | p j Hc Hcap | p Hc | p i d rest Hi Hjobs
                    | p i Hi Hjobs Hc | p i result Hi Hc Hcap
                    | p i result Hi Hc | p Hk Hz Hc | p result rest Hout].
  - (* spawn *)
    pose proof (live_snoc (workers p) Ranging) as Hlive. simpl in Hlive.
    pool_invariant_case Hclosed.
    rewrite length_app. simpl. lia.
  - pool_invariant_case Hclosed.
  - pool_invariant_case Hclosed.
  - (* receive *)
    pose proof (live_insert (workers p) i Ranging (on_receive d) Hi) as Hlive.
    simpl in Hlive.
    pose proof (live_lookup (workers p) i Ranging Hi eq_refl) as Hpos.
    pool_invariant_case Hclosed.
    + unfold done. destruct (is_live (on_receive d)); lia.
    + rewrite length_insert. exact Hlen.
  - (* drained *)
    pose proof (live_insert (workers p) i Ranging Exited Hi) as Hlive.
    simpl in Hlive.
    pool_invariant_case Hclosed.
    rewrite length_insert. exact Hlen.
  - (* send *)
    pose proof (live_insert (workers p) i (Sending result) Ranging Hi) as Hlive.
    simpl in Hlive.
    pool_invariant_case Hclosed.
    rewrite length_insert. exact Hlen.
  - (* a send on the closed channel cannot happen *)
    pose proof (live_lookup (workers p) i (Sending result) Hi eq_refl) as Hpos.
    destruct (Hclosed Hc) as [_ H0]. lia.
  - pool_invariant_case Hclosed.
  - pool_invariant_case Hclosed.
Qed.

Lemma pool_invariant_reachable (n : nat) (p : Pool) :
  reachable n p -> pool_invariant n p.
Proof.
  unfold Pipeline.reachable. revert p.
  apply (rtc_ind_r (fun p => pool_invariant n p)).
  - repeat split; simpl; try reflexivity; try lia; discriminate.
  - intros q p _ Hstep IH.
    apply (pool_invariant_step n q p); [exact IH | exact Hstep].
Qed.

(** Every step taken after the input is closed uses up some of the
    remaining work, so the pool takes finitely many steps from there. *)
Lemma step_uses_work (n : nat) (p p' : Pool) :
  pool_invariant n p ->
  jobChan_closed p = true ->
  step p p' ->
  (remaining_work p' < remaining_work p)%nat.
Proof.
  intros (Hwg & Hlen & Hclosed & Hpanic) Hin Hstep.
  destruct Hstep as [p k Hk | p j Hc Hcap | p Hc | p i d rest Hi Hjobs
                    | p i Hi Hjobs Hc | p i result Hi Hc Hcap
                    | p i result Hi Hc | p Hk Hz Hc | p result rest Hout];
    unfold remaining_work;
    cbn [jobChan unspawned workers jobDescriptionChan jobDescriptionChan_closed].
  - rewrite Hk, sum_list_fmap_snoc. simpl. lia.
  - congruence.
  - congruence.
  - pose proof (sum_list_fmap_insert weight (workers p) i Ranging (on_receive d) Hi) as Hw.
    rewrite Hjobs. simpl in *.
    assert (weight (on_receive d) <= 3)%nat by (destruct (on_receive d); simpl; lia).
    lia.
  - pose proof (sum_list_fmap_insert weight (workers p) i Ranging Exited Hi) as Hw.
    simpl in *. lia.
  - pose proof (sum_list_fmap_insert weight (workers p) i (Sending result) Ranging Hi) as Hw.
    rewrite length_app. simpl in *. lia.
  - pose proof (live_lookup (workers p) i (Sending result) Hi eq_refl) as Hpos.
    destruct (Hclosed Hc) as [_ H0]. lia.
  - rewrite Hc. lia.
  - rewrite Hout. simpl. lia.
Qed.

(** While the orchestrator has not finished its [range], and once the
    input is closed, some goroutine can take a step: the pool is never
    stuck. *)
Lemma pool_progress (n : nat) (p : Pool) :
  pool_invariant n p ->
  jobChan_closed p = true ->
  ~ consumer_finished p ->
  exists p', step p p'.
Proof.
  intros (Hwg & Hlen & Hclosed & Hpanic) Hin Hgoing.
  destruct (unspawned p) as [|k] eqn:Hk.
  2: { eexists. apply (step_spawn _ _ p k Hk). }
  destruct (jobDescriptionChan p) as [|result rest] eqn:Hout.
  2: { eexists. apply (step_consume _ _ p result rest Hout). }
  destruct (jobDescriptionChan_closed p) eqn:Hc.
  { contradiction Hgoing. split; assumption. }
  destruct (live_worker (workers p)) as [Hall | (i & w & Hi & Hw)].
  - eexists. apply (step_close _ _ p Hk); [|exact Hc].
    rewrite Hwg. unfold live.
    rewrite (sum_list_fmap_same 0 (workers p)); [lia|].
    eapply Forall_impl; [exact Hall|]. intros w ->. reflexivity.
  - destruct w as [|result|]; [| |discriminate].
    + destruct (jobChan p) as [|j rest] eqn:Hjobs.
      * eexists. apply (step_drained _ _ p i Hi Hjobs Hin).
      * eexists.
        apply (step_receive _ _ p i
                 {| job := j; cancelled := false; net := Utils.refused |} rest Hi Hjobs).
    + eexists. apply (step_send _ _ p i result Hi Hc).
      rewrite Hout. unfold capacity. simpl. lia.
Qed.

(** C7.  In every state the pool of [GetJobDescription] can reach: the
    counter of the wait group is the number of workers that have not
    returned; the output channel is closed only when all the [n] workers
    were started and every one has returned, and no worker ever sends on the
    closed channel; once the input is closed, some goroutine can move as
    long as the orchestrator has not finished its [range] over the output,
    and every move uses up some of a finite amount of remaining work, so
    the [range] ends; and once every worker has returned the output can be
    closed at once. *)
Theorem output_closes_after_every_worker_exits (n : nat) (p : Pool) :
  reachable n p ->
  wg p = Z.of_nat (live (workers p)) /\
  (jobDescriptionChan_closed p = true ->
   length (workers p) = n /\ Forall (fun w => w = Exited) (workers p)) /\
  panicked p = false /\
  (jobChan_closed p = true -> ~ consumer_finished p -> exists p', step p p') /\
  (forall p', jobChan_closed p = true -> step p p' ->
              (remaining_work p' < remaining_work p)%nat) /\
  (unspawned p = 0%nat -> Forall (fun w => w = Exited) (workers p) ->
   jobDescriptionChan_closed p = false ->
   exists p', step p p' /\ jobDescriptionChan_closed p' = true /\
              jobDescriptionChan p' = jobDescriptionChan p).
Proof.
  intros Hreach. pose proof (pool_invariant_reachable n p Hreach) as Hinv.
  pose proof Hinv as (Hwg & Hlen & Hclosed & Hpanic).
  split; [exact Hwg|]. split; [|split; [exact Hpanic|split; [|split]]].
  - intros Hc. destruct (Hclosed Hc) as [Hk Hz]. split; [lia|].
    apply live_none. lia.
  - intros Hin Hgoing. exact (pool_progress n p Hinv Hin Hgoing).
  - intros p' Hin Hstep. exact (step_uses_work n p p' Hinv Hin Hstep).
  - intros Hk Hall Hc.
    assert (Hz : wg p = 0).
    { rewrite Hwg. unfold live.
      rewrite (sum_list_fmap_same 0 (workers p)); [lia|].
      eapply Forall_impl; [exact Hall|]. intros w ->. reflexivity. }
    eexists. split; [exact (step_close _ _ p Hk Hz Hc)|].
    split; reflexivity.
Qed.

End PoolFacts.

Lemma idle_pool_closed_reachable :
  Pipeline.reachable Pipeline.described Scraper.defaults Pipeline.numWorkers
    Pipeline.idle_pool_closed.
Proof.
  unfold Pipeline.reachable, Pipeline.numWorkers.
  eapply rtc_l; [apply (Pipeline.step_spawn _ _ _ 2%nat); reflexivity|]; cbn.
  eapply rtc_l; [apply (Pipeline.step_spawn _ _ _ 1%nat); reflexivity|]; cbn.
  eapply rtc_l; [apply (Pipeline.step_spawn _ _ _ 0%nat); reflexivity|]; cbn.
  eapply rtc_l; [apply Pipeline.step_close_jobs; reflexivity|]; cbn.
  eapply rtc_l; [apply (Pipeline.step_drained _ _ _ 0%nat); reflexivity|]; cbn.
  eapply rtc_l; [apply (Pipeline.step_drained _ _ _ 1%nat); reflexivity|]; cbn.
  eapply rtc_l; [apply (Pipeline.step_drained _ _ _ 2%nat); reflexivity|]; cbn.
  eapply rtc_l; [apply Pipeline.step_close; reflexivity|]; cbn.
  apply rtc_refl.
Defined.

Lemma output_closes_after_every_worker_exits_witness :
  Pipeline.wg Pipeline.idle_pool_closed
  = Z.of_nat (Pipeline.live (Pipeline.workers Pipeline.idle_pool_closed)) /\
  length (Pipeline.workers Pipeline.idle_pool_closed) = Pipeline.numWorkers /\
  Forall (fun w => w = Pipeline.Exited) (Pipeline.workers Pipeline.idle_pool_closed).
Proof.
  destruct (output_closes_after_every_worker_exits Pipeline.described
              Scraper.defaults Pipeline.numWorkers Pipeline.idle_pool_closed
              idle_pool_closed_reachable) as (Hwg & Hclosed & _).
  split; [exact Hwg|]. apply Hclosed. reflexivity.
Defined.

(* ===================================================================== *)
(** * Facts about the repositories *)
(* ===================================================================== *)

Section RepoFacts.
Import Models Repo.

Lemma foldl_upsert_lookup (batch : list Job) (table : gmap Z Job) (id : Z) :
  foldl upsert_job table batch !! id
  = match last_with_id id batch with
    | Some job => Some job
    | None => table !! id
    end.
Proof.
  revert table. induction batch as [|job batch IH]; intros table; [reflexivity|].
  cbn [foldl last_with_id]. rewrite IH.
  destruct (last_with_id id batch) as [later|]; [reflexivity|].
  unfold upsert_job. rewrite lookup_insert.
  destruct (decide (ID job = id)) as [Heq|Hne].
  - rewrite bool_decide_eq_true_2 by exact Heq. reflexivity.
  - rewrite bool_decide_eq_false_2 by exact Hne. reflexivity.
Qed.

Lemma last_with_id_Some (id : Z) (batch : list Job) (job : Job) :
  last_with_id id batch = Some job -> ID job = id /\ job ∈ batch.
Proof.
  induction batch as [|x batch IH]; [discriminate|].
  cbn [last_with_id].
  destruct (last_with_id id batch) as [later|].
  - intros [= ->]. destruct (IH eq_refl) as [Hid Hin].
    split; [exact Hid|]. right. exact Hin.
  - destruct (bool_decide (ID x = id)) eqn:Hx; [|discriminate].
    intros [= ->]. apply bool_decide_eq_true in Hx. split; [exact Hx|left].
Qed.

(** In a list without two jobs of one identifier, the last job with the
    identifier of a member is that member. *)
Lemma last_with_id_NoDup (rows : list Job) (job : Job) :
  NoDup (ID <$> rows) -> job ∈ rows -> last_with_id (ID job) rows = Some job.
Proof.
  induction rows as [|x rows IH]; intros Hnd Hin; [inversion Hin|].
  rewrite fmap_cons in Hnd. apply NoDup_cons in Hnd as [Hx Hnd].
  cbn [last_with_id].
  apply elem_of_cons in Hin as [->|Hin].
  - destruct (last_with_id (ID x) rows) as [later|] eqn:Hlater.
    + apply last_with_id_Some in Hlater as [Hid Hin].
      contradiction Hx. rewrite <- Hid. apply list_elem_of_fmap. eauto.
    + rewrite bool_decide_eq_true_2 by reflexivity. reflexivity.
  - rewrite (IH Hnd Hin). reflexivity.
Qed.

(** The map that [SaveJobs] builds holds, under each identifier, the last
    job of the batch with that identifier. *)
Lemma jobMap_lookup (batch : list Job) (id : Z) :
  foldl (fun (m : gmap Z Job) job => <[ID job := job]> m) ∅ batch !! id
  = last_with_id id batch.
Proof.
  rewrite (foldl_upsert_lookup batch ∅ id).
  destruct (last_with_id id batch); [reflexivity|apply lookup_empty].
Qed.

Lemma keyed_values (m : gmap Z Job) :
  (forall k job, m !! k = Some job -> ID job = k) ->
  ID <$> (map_to_list m).*2 = (map_to_list m).*1.
Proof.
  intros Hkey.
  assert (Hall : Forall (fun kv => ID kv.2 = kv.1) (map_to_list m)).
  { apply Forall_forall. intros [k job] Hin.
    apply elem_of_map_to_list in Hin. simpl. exact (Hkey k job Hin). }
  induction Hall as [|[k job] l Hkv _ IH]; [reflexivity|].
  rewrite !fmap_cons. simpl in Hkv. cbn [fst snd]. rewrite Hkv. f_equal. exact IH.
Qed.

Section Order.
Variable range_jobMap : gmap Z Job -> list Job.
Hypothesis range_jobMap_values :
  forall m, range_jobMap m ≡ₚ (map_to_list m).*2.

Lemma uniqueJobs_members (batch : list Job) (job : Job) :
  job ∈ range_jobMap (foldl (fun (m : gmap Z Job) job => <[ID job := job]> m) ∅ batch)
  <-> last_with_id (ID job) batch = Some job.
Proof.
  rewrite range_jobMap_values. rewrite list_elem_of_fmap. split.
  - intros ([k job'] & -> & Hin). simpl.
    apply elem_of_map_to_list in Hin. rewrite jobMap_lookup in Hin.
    destruct (last_with_id_Some _ _ _ Hin) as [-> _]. exact Hin.
  - intros Hlast. exists (ID job, job). split; [reflexivity|].
    apply elem_of_map_to_list. rewrite jobMap_lookup. exact Hlast.
Qed.

Lemma uniqueJobs_NoDup (batch : list Job) :
  NoDup (ID <$> range_jobMap
           (foldl (fun (m : gmap Z Job) job => <[ID job := job]> m) ∅ batch)).
Proof.
  rewrite range_jobMap_values. rewrite keyed_values.
  - apply NoDup_fst_map_to_list.
  - intros k job Hk. rewrite jobMap_lookup in Hk.
    apply last_with_id_Some in Hk as [Hid _]. exact Hid.
Qed.

Lemma uniqueJobs_last (batch : list Job) (id : Z) :
  last_with_id id
    (range_jobMap (foldl (fun (m : gmap Z Job) job => <[ID job := job]> m) ∅ batch))
  = last_with_id id batch.
Proof.
  destruct (last_with_id id batch) as [job|] eqn:Hbatch.
  - destruct (last_with_id_Some _ _ _ Hbatch) as [<- _].
    apply last_with_id_NoDup; [apply uniqueJobs_NoDup|].
    apply uniqueJobs_members. exact Hbatch.
  - destruct (last_with_id id (range_jobMap _)) as [job|] eqn:Hrows; [|reflexivity].
    apply last_with_id_Some in Hrows as [<- Hin].
    apply uniqueJobs_members in Hin. congruence.
Qed.

(** What one call of [SaveJobs] does to a database that can be reached. *)
Lemma SaveJobs_upserts (batch : list Job) (db : DB) :
  failure db = None ->
  exists db',
    SaveJobs range_jobMap batch db = (None, db') /\
    failure db' = None /\
    (forall id, jobs db' !! id
                = match last_with_id id batch with
                  | Some job => Some job
                  | None => jobs db !! id
                  end) /\
    (batch <> [] ->
     exists rows,
       executed db' = executed db ++ [UpsertJobs rows] /\
       NoDup (ID <$> rows) /\
       (forall job, job ∈ rows <-> last_with_id (ID job) batch = Some job)).
Proof.
  intros Hup. unfold SaveJobs.
  destruct batch as [|job batch].
  { exists db. repeat split; try assumption; try reflexivity. congruence. }
  rewrite bool_decide_eq_false_2 by discriminate.
  set (jobMap := foldl (fun (m : gmap Z Job) job => <[ID job := job]> m) ∅ (job :: batch)).
  unfold Exec. rewrite Hup.
  rewrite bool_decide_eq_true_2 by apply uniqueJobs_NoDup.
  eexists. split; [reflexivity|]. cbn [failure jobs executed].
  split; [reflexivity|]. split.
  - intros id. rewrite foldl_upsert_lookup. unfold jobMap.
    rewrite uniqueJobs_last. reflexivity.
  - intros _. exists (range_jobMap jobMap). split; [reflexivity|].
    split; [apply uniqueJobs_NoDup|]. intros j. apply uniqueJobs_members.
Qed.

End Order.

(** C9.  [SaveJobs] on a database that can be reached returns no error and
    leaves, under every identifier of the batch, the last record of the
    batch with that identifier (so of two records with one identifier and
    different titles the later title is stored), and the other records as
    they were; the statement it sends holds exactly one row for each
    identifier of the batch; and saving the same batch again changes no
    record. *)
Theorem saved_batch_keeps_last_occurrence
    (range_jobMap : gmap Z Job -> list Job) (batch : list Job) (db : DB) :
  (forall m, range_jobMap m ≡ₚ (map_to_list m).*2) ->
  failure db = None ->
  exists db',
    SaveJobs range_jobMap batch db = (None, db') /\
    (forall id, jobs db' !! id
                = match last_with_id id batch with
                  | Some job => Some job
                  | None => jobs db !! id
                  end) /\
    (batch <> [] ->
     exists rows,
       executed db' = executed db ++ [UpsertJobs rows] /\
       NoDup (ID <$> rows) /\
       (forall job, job ∈ rows <-> last_with_id (ID job) batch = Some job)) /\
    (exists db'',
       SaveJobs range_jobMap batch db' = (None, db'') /\ jobs db'' = jobs db').
Proof.
  intros Horder Hup.
  destruct (SaveJobs_upserts range_jobMap Horder batch db Hup)
    as (db' & Hsave & Hup' & Hjobs & Hrows).
  exists db'. split; [exact Hsave|]. split; [exact Hjobs|]. split; [exact Hrows|].
  destruct (SaveJobs_upserts range_jobMap Horder batch db' Hup')
    as (db'' & Hsave' & _ & Hjobs' & _).
  exists db''. split; [exact Hsave'|].
  apply map_eq. intros id. rewrite Hjobs', Hjobs.
  destruct (last_with_id id batch); reflexivity.
Qed.

(** C10.  On an empty batch both repositories return nil and leave the
    database as it was, the list of the statements it received included;
    so does the orchestrator when the pool sent no result. *)
Theorem empty_batch_sends_no_statement
    (range_jobMap : gmap Z Job -> list Job)
    (json_Marshal : gmap string string -> Result string) (db : DB) :
  SaveJobs range_jobMap [] db = (None, db) /\
  SaveJobDescriptions json_Marshal [] db = (None, db) /\
  Pipeline.ProcessJobsStreaming range_jobMap json_Marshal [] db = (None, db).
Proof.
  repeat split; reflexivity.
Qed.

End RepoFacts.

Lemma saved_batch_keeps_last_occurrence_witness :
  exists db',
    Repo.SaveJobs Repo.in_key_order Repo.two_titles Repo.empty_db = (None, db') /\
    Repo.jobs db' !! 7 = Some (Repo.titled 7 "Senior Frontend Developer") /\
    Repo.jobs db' !! 8 = Some (Repo.titled 8 "Backend Developer").
Proof.
  destruct (saved_batch_keeps_last_occurrence Repo.in_key_order Repo.two_titles
              Repo.empty_db (fun m => reflexivity _) eq_refl)
    as (db' & Hsave & Hjobs & _).
  exists db'. split; [exact Hsave|].
  rewrite !Hjobs. split; reflexivity.
Defined.

(** The same batch, run: one statement of two rows is sent. *)
Example SaveJobs_two_titles :
  (Repo.SaveJobs Repo.in_key_order Repo.two_titles Repo.empty_db).1 = None /\
  Repo.executed (Repo.SaveJobs Repo.in_key_order Repo.two_titles Repo.empty_db).2
  = [Repo.UpsertJobs [Repo.titled 7 "Senior Frontend Developer";
                      Repo.titled 8 "Backend Developer"]].
Proof. vm_compute. split; reflexivity. Qed.

(* ===================================================================== *)
(** * More on the transport *)
(* ===================================================================== *)

Section TransportBounds.
Import Utils.

Lemma spec_class_Success (o : RoundTrip) :
  spec_class o = Success -> exists resp, o = DoResp resp /\ is_2xx resp = true.
Proof.
  destruct o as [err|resp]; simpl; [discriminate|].
  destruct (is_2xx resp) eqn:H2; [eauto|].
  destruct (StatusCode resp =? 429); discriminate.
Qed.

Lemma requests_cons (e : Event) (tr : list Event) :
  requests (e :: tr)
  = match e with EvDo _ => S (requests tr) | _ => requests tr end.
Proof. destruct e; reflexivity. Qed.

Lemma delays_cons (e : Event) (tr : list Event) :
  delays (e :: tr)
  = match e with EvDo _ => delays tr | EvSleep d | EvInterrupted d => d :: delays tr end.
Proof. destruct e; reflexivity. Qed.

Variable maxRetries : Z.
Variable env : Env.

(** The loop makes at most one round trip per iteration, waits at most
    once per round trip, and only for the delays of attempts below the
    bound. *)
Lemma attempts_bounds (delay : Z -> Duration) (remaining : nat) :
  forall (attempt : Z) (lastErr : option error),
    (requests (attempts maxRetries delay env remaining attempt lastErr).2
     <= remaining)%nat /\
    (length (delays (attempts maxRetries delay env remaining attempt lastErr).2)
     <= Z.to_nat (maxRetries - attempt))%nat /\
    Forall (fun d => exists i, attempt <= i < maxRetries /\ d = delay i)
           (delays (attempts maxRetries delay env remaining attempt lastErr).2).
Proof.
  induction remaining as [|remaining IH]; intros attempt lastErr.
  { unfold requests, delays. simpl. split; [lia|split; [lia|constructor]]. }
  destruct (NewRequestWithContext env) as [err|] eqn:Hreq.
  { simpl. rewrite Hreq. unfold requests, delays. simpl. split; [lia|split; [lia|constructor]]. }
  destruct (spec_class (client_Do env attempt)) eqn:Hc.
  - destruct (spec_class_Success _ Hc) as (resp & Hdo & H2).
    rewrite (attempts_success maxRetries delay env Hreq _ _ _ _ Hdo H2).
    unfold requests, delays. simpl. split; [lia|split; [lia|constructor]].
  - rewrite (attempts_retryable maxRetries delay env Hreq _ _ _ Hc).
    specialize (IH (attempt + 1) (cause_of (client_Do env attempt))).
    destruct (attempts maxRetries delay env remaining (attempt + 1)
                (cause_of (client_Do env attempt))) as [r tr].
    cbn [snd] in IH. destruct IH as (IH1 & IH2 & IH3).
    assert (Hshift : Forall (fun d => exists i, attempt <= i < maxRetries /\ d = delay i)
                            (delays tr)).
    { eapply Forall_impl; [exact IH3|]. intros d (i & Hi & ->). exists i. split; [lia|reflexivity]. }
    destruct (attempt <? maxRetries) eqn:Hlt.
    + apply Z.ltb_lt in Hlt.
      destruct (backoff_select env attempt) as [err|]; cbn [snd];
        rewrite !requests_cons, !delays_cons;
        change (requests []) with 0%nat; change (delays []) with (@nil Duration); simpl.
      * split; [lia|split; [lia|]].
        constructor; [|constructor]. exists attempt. split; [lia|reflexivity].
      * split; [lia|split; [lia|]].
        constructor; [|exact Hshift]. exists attempt. split; [lia|reflexivity].
    + cbn [snd]. rewrite !requests_cons, !delays_cons.
      split; [lia|split; [lia|exact Hshift]].
  - destruct (attempts_terminal maxRetries delay env Hreq remaining attempt lastErr Hc)
      as (resp & _ & ->).
    unfold requests, delays. simpl. split; [lia|split; [lia|constructor]].
Qed.

(** A response that is returned is a 2xx response, the one of the last
    round trip of the call. *)
Lemma attempts_Ok (delay : Z -> Duration) (remaining : nat) :
  forall (attempt : Z) (lastErr : option error) (resp : Response) (tr : list Event),
    attempts maxRetries delay env remaining attempt lastErr = (Ok resp, tr) ->
    is_2xx resp = true /\
    exists k, attempt <= k /\ client_Do env k = DoResp resp /\ last tr = Some (EvDo k).
Proof.
  induction remaining as [|remaining IH]; intros attempt lastErr resp tr Hrun.
  { discriminate Hrun. }
  destruct (NewRequestWithContext env) as [err|] eqn:Hreq.
  { simpl in Hrun. rewrite Hreq in Hrun. discriminate Hrun. }
  destruct (spec_class (client_Do env attempt)) eqn:Hc.
  - destruct (spec_class_Success _ Hc) as (resp' & Hdo & H2).
    rewrite (attempts_success maxRetries delay env Hreq _ _ _ _ Hdo H2) in Hrun.
    injection Hrun as <- <-. split; [exact H2|].
    exists attempt. split; [lia|]. split; [exact Hdo|reflexivity].
  - rewrite (attempts_retryable maxRetries delay env Hreq _ _ _ Hc) in Hrun.
    specialize (IH (attempt + 1) (cause_of (client_Do env attempt)) resp).
    destruct (attempts maxRetries delay env remaining (attempt + 1)
                (cause_of (client_Do env attempt))) as [r tr'].
    assert (Hrest : r = Ok resp ->
                    is_2xx resp = true /\
                    exists k, attempt <= k /\ client_Do env k = DoResp resp /\
                              last tr' = Some (EvDo k)).
    { intros ->. destruct (IH tr' eq_refl) as (H2 & k & Hk & Hdo & Hlast).
      split; [exact H2|]. exists k. split; [lia|]. split; assumption. }
    destruct (attempt <? maxRetries).
    + destruct (backoff_select env attempt) as [err|]; [discriminate Hrun|].
      injection Hrun as -> <-.
      destruct (Hrest eq_refl) as (H2 & k & Hk & Hdo & Hlast).
      split; [exact H2|]. exists k. split; [exact Hk|]. split; [exact Hdo|].
      destruct tr' as [|e tr']; [discriminate Hlast|]. exact Hlast.
    + injection Hrun as -> <-.
      destruct (Hrest eq_refl) as (H2 & k & Hk & Hdo & Hlast).
      split; [exact H2|]. exists k. split; [exact Hk|]. split; [exact Hdo|].
      destruct tr' as [|e tr']; [discriminate Hlast|]. exact Hlast.
  - destruct (attempts_terminal maxRetries delay env Hreq remaining attempt lastErr Hc)
      as (resp' & _ & Heq).
    rewrite Heq in Hrun. discriminate Hrun.
Qed.


End TransportBounds.

Section TransportMore.
Import Utils.

(** X1.  Whatever the network and the context do, the method makes at most
    [MaxRetries + 1] round trips and waits at most [MaxRetries] times, two
    seconds each time; the free function makes at most four round trips and
    waits at most three times, between one and four seconds each time. *)
Theorem round_trips_and_waits_are_bounded (config : RetryConfig) (env : Env) :
  (requests (Impl.RetryableHTTPRequest config env).2
   <= Z.to_nat (MaxRetries config + 1))%nat /\
  (length (delays (Impl.RetryableHTTPRequest config env).2)
   <= Z.to_nat (MaxRetries config))%nat /\
  Forall (fun d => d = 2 * Second) (delays (Impl.RetryableHTTPRequest config env).2) /\
  (requests (RetryableHTTPRequest env).2 <= 4)%nat /\
  (length (delays (RetryableHTTPRequest env).2) <= 3)%nat /\
  Forall (fun d => 1 * Second <= d <= 4 * Second) (delays (RetryableHTTPRequest env).2).
Proof.
  unfold Impl.RetryableHTTPRequest, RetryableHTTPRequest.
  destruct (attempts_bounds (MaxRetries config) env Impl.delay
              (Z.to_nat (MaxRetries config + 1)) 0 None) as (H1 & H2 & H3).
  destruct (attempts_bounds 3 env delay 4 0 None) as (H4 & H5 & H6).
  split; [exact H1|]. split; [rewrite Z.sub_0_r in H2; exact H2|]. split.
  { eapply Forall_impl; [exact H3|]. intros d (i & _ & ->). reflexivity. }
  split; [exact H4|]. split; [exact H5|].
  eapply Forall_impl; [exact H6|]. intros d (i & Hi & ->).
  assert (i = 0 \/ i = 1 \/ i = 2) as [-> | [-> | ->]] by lia;
    vm_compute; split; discriminate.
Qed.

(** X2.  A response that the transport returns has a 2xx status and is the
    response of the last round trip of the call. *)
Theorem returned_response_is_2xx
    (config : RetryConfig) (env : Env) (resp : Response) (tr : list Event) :
  (Impl.RetryableHTTPRequest config env = (Ok resp, tr) ->
   is_2xx resp = true /\
   exists k, 0 <= k /\ client_Do env k = DoResp resp /\ last tr = Some (EvDo k)) /\
  (RetryableHTTPRequest env = (Ok resp, tr) ->
   is_2xx resp = true /\
   exists k, 0 <= k /\ client_Do env k = DoResp resp /\ last tr = Some (EvDo k)).
Proof.
  split; intros Hrun; eapply attempts_Ok; exact Hrun.
Qed.

Lemma returned_response_is_2xx_witness :
  is_2xx (response 200 "200 OK") = true /\
  exists k, 0 <= k /\
            client_Do limited_once k = DoResp (response 200 "200 OK") /\
            last [EvDo 0; EvSleep (2 * Second); EvDo 1] = Some (EvDo k).
Proof.
  exact (proj1 (returned_response_is_2xx default_config limited_once
                  (response 200 "200 OK") [EvDo 0; EvSleep (2 * Second); EvDo 1])
               eq_refl).
Defined.

(** X3.  When the request cannot be built, no round trip is made and the
    error of the construction is returned, wrapped. *)
Theorem unbuilt_request_makes_no_round_trip
    (config : RetryConfig) (env : Env) (err : error) :
  NewRequestWithContext env = Some err ->
  (0 <= MaxRetries config ->
   Impl.RetryableHTTPRequest config env
   = (Err (ErrorfW "failed to create request: " (Some err)), [])) /\
  RetryableHTTPRequest env
  = (Err (ErrorfW "failed to create request: " (Some err)), []).
Proof.
  intros Hreq. split.
  - intros Hle. unfold Impl.RetryableHTTPRequest.
    replace (Z.to_nat (MaxRetries config + 1))
      with (S (Z.to_nat (MaxRetries config))) by lia.
    simpl. rewrite Hreq. reflexivity.
  - unfold RetryableHTTPRequest. simpl. rewrite Hreq. reflexivity.
Qed.

Lemma unbuilt_request_makes_no_round_trip_witness :
  Impl.RetryableHTTPRequest default_config Samples.unbuildable
  = (Err (ErrorfW "failed to create request: "
                  (Some (LibError "net/http: invalid method"))), []) /\
  RetryableHTTPRequest Samples.unbuildable
  = (Err (ErrorfW "failed to create request: "
                  (Some (LibError "net/http: invalid method"))), []).
Proof.
  destruct (unbuilt_request_makes_no_round_trip default_config Samples.unbuildable
              (LibError "net/http: invalid method") eq_refl) as [H1 H2].
  split; [apply H1; simpl; lia | exact H2].
Defined.

(** X4.  With a negative [MaxRetries] the method makes no attempt at all:
    it returns the exhaustion error around the nil error, whose text ends
    in the mark [fmt] prints for a nil operand of [%w]. *)
Theorem negative_bound_makes_no_attempt (config : RetryConfig) (env : Env) :
  MaxRetries config < 0 ->
  Impl.RetryableHTTPRequest config env = (Err (exhaustion_error None), []) /\
  Error (exhaustion_error None)
  = "all retry attempts failed, last error: %!w(<nil>)".
Proof.
  intros Hneg. split; [|reflexivity].
  unfold Impl.RetryableHTTPRequest.
  replace (Z.to_nat (MaxRetries config + 1)) with 0%nat by lia. reflexivity.
Qed.

Lemma negative_bound_makes_no_attempt_witness :
  Impl.RetryableHTTPRequest (retries (-1)) (always 200 "200 OK")
  = (Err (exhaustion_error None), []).
Proof.
  apply (negative_bound_makes_no_attempt (retries (-1)) (always 200 "200 OK")).
  simpl. lia.
Defined.



End TransportMore.

(* ===================================================================== *)
(** * Facts about strings *)
(* ===================================================================== *)

Section StringFacts.
Import Observe.

Lemma append_nil_r (s : string) : s +:+ "" = s.
Proof.
  induction s as [|c s IH]; [reflexivity|].
  change (String c (s +:+ "") = String c s). f_equal. exact IH.
Qed.

Lemma append_cons (c : ascii) (s1 s2 : string) :
  String c s1 +:+ s2 = String c (s1 +:+ s2).
Proof. reflexivity. Qed.

Lemma append_assoc (s1 s2 s3 : string) : (s1 +:+ s2) +:+ s3 = s1 +:+ (s2 +:+ s3).
Proof.
  induction s1 as [|c s1 IH]; [reflexivity|].
  rewrite !append_cons. f_equal. exact IH.
Qed.

Lemma rev_app_append (s1 s2 : string) :
  String.rev_app s1 s2 = String.rev s1 +:+ s2.
Proof.
  unfold String.rev. revert s2.
  induction s1 as [|c s1 IH]; intros s2; simpl; [reflexivity|].
  rewrite (IH (String c s2)), (IH (String c "")), append_assoc. reflexivity.
Qed.

Lemma rev_cons (c : ascii) (s : string) :
  String.rev (String c s) = String.rev s +:+ String c "".
Proof. unfold String.rev at 1. simpl. apply rev_app_append. Qed.

Lemma rev_append (s1 s2 : string) :
  String.rev (s1 +:+ s2) = String.rev s2 +:+ String.rev s1.
Proof.
  induction s1 as [|c s1 IH].
  - change (String.rev s2 = String.rev s2 +:+ ""). rewrite append_nil_r. reflexivity.
  - rewrite append_cons, !rev_cons, IH, append_assoc. reflexivity.
Qed.

Lemma rev_rev (s : string) : String.rev (String.rev s) = s.
Proof.
  induction s as [|c s IH]; [reflexivity|].
  rewrite rev_cons, rev_append, IH. reflexivity.
Qed.

Lemma all_digits_append (s1 s2 : string) :
  all_digits (s1 +:+ s2) = all_digits s1 && all_digits s2.
Proof.
  induction s1 as [|c s1 IH]; [reflexivity|].
  rewrite append_cons. cbn [all_digits]. rewrite IH.
  destruct (is_digit c); reflexivity.
Qed.

Lemma all_digits_rev (s : string) : all_digits (String.rev s) = all_digits s.
Proof.
  induction s as [|c s IH]; [reflexivity|].
  rewrite rev_cons, all_digits_append, IH. cbn [all_digits].
  destruct (is_digit c), (all_digits s); reflexivity.
Qed.

(** A string is its leading digits followed by a rest that does not start
    with a digit. *)
Lemma leading_digits_split (s : string) :
  s = leading_digits s +:+ after_digits s /\
  all_digits (leading_digits s) = true /\
  starts_with_digit (after_digits s) = false.
Proof.
  induction s as [|c s (IH1 & IH2 & IH3)]; [repeat split|].
  cbn [leading_digits after_digits].
  destruct (is_digit c) eqn:Hc.
  - rewrite append_cons. cbn [all_digits]. rewrite Hc, IH2, <- IH1.
    repeat split. exact IH3.
  - change ("" +:+ String c s) with (String c s).
    cbn [all_digits starts_with_digit]. rewrite Hc. repeat split.
Qed.

(** The run that the pattern captures ends the string, holds digits only,
    and is not preceded by a digit. *)
Lemma trailing_digits_spec (s : string) :
  s = String.rev (after_digits (String.rev s)) +:+ trailing_digits s /\
  all_digits (trailing_digits s) = true /\
  ends_with_digit (String.rev (after_digits (String.rev s))) = false.
Proof.
  destruct (leading_digits_split (String.rev s)) as (Hsplit & Hdigits & Hrest).
  unfold trailing_digits, ends_with_digit. split; [|split].
  - rewrite <- rev_append, <- Hsplit, rev_rev. reflexivity.
  - rewrite all_digits_rev. exact Hdigits.
  - rewrite rev_rev. exact Hrest.
Qed.

(** The decimal value of a string of digits is not negative. *)
Lemma digits_value_digits (s : string) :
  forall acc, all_digits s = true -> (0 <= acc)%Z ->
              exists v, digits_value acc s = Some v /\ (0 <= v)%Z.
Proof.
  induction s as [|c s IH]; intros acc Hall Hacc; simpl in *.
  - eauto.
  - apply andb_true_iff in Hall as [Hc Hall]. rewrite Hc.
    apply IH; [exact Hall|].
    unfold is_digit in Hc. apply andb_true_iff in Hc as [Hlo _].
    apply Z.leb_le in Hlo. lia.
Qed.

(** [strconv.ParseInt] on a non-empty string of digits: the value, or the
    largest [int64] with a range error. *)
Lemma ParseInt_digits (s : string) (v : Z) :
  s <> "" -> all_digits s = true -> digits_value 0 s = Some v ->
  ParseInt s = if (2 ^ 63 <=? v)%Z then (2 ^ 63 - 1, Some (rangeError s))%Z
               else (v, None).
Proof.
  intros Hne Hall Hv. destruct s as [|c s]; [contradiction Hne; reflexivity|].
  assert (Hc : is_digit c = true).
  { simpl in Hall. apply andb_true_iff in Hall as [Hc _]. exact Hc. }
  unfold ParseInt.
  assert (bool_decide (c = "-"%char) = false) as ->.
  { apply bool_decide_eq_false_2. intros ->. discriminate Hc. }
  assert (bool_decide (c = "+"%char) = false) as ->.
  { apply bool_decide_eq_false_2. intros ->. discriminate Hc. }
  cbn [orb negb andb]. rewrite Hv.
  destruct (2 ^ 63 <=? v)%Z; reflexivity.
Qed.

Lemma rev_empty (s : string) : String.rev s = "" -> s = "".
Proof. intros H. rewrite <- (rev_rev s), H. reflexivity. Qed.

Lemma TrimLeft_space_start (s : string) :
  starts_with_space (TrimLeft_space s) = false.
Proof.
  induction s as [|c s IH]; [reflexivity|]. cbn [TrimLeft_space].
  destruct (is_space c) eqn:Hc; [exact IH|]. cbn. exact Hc.
Qed.

Lemma TrimLeft_space_fixed (s : string) :
  starts_with_space s = false -> TrimLeft_space s = s.
Proof.
  destruct s as [|c s]; [reflexivity|]. cbn. intros ->. reflexivity.
Qed.

Lemma TrimLeft_space_split (s : string) :
  exists spaces, s = spaces +:+ TrimLeft_space s.
Proof.
  induction s as [|c s [spaces IH]]; [exists ""; reflexivity|].
  cbn [TrimLeft_space]. destruct (is_space c).
  - exists (String c spaces). rewrite append_cons, <- IH. reflexivity.
  - exists "". reflexivity.
Qed.

Lemma starts_with_space_append (s1 s2 : string) :
  s1 <> "" -> starts_with_space (s1 +:+ s2) = starts_with_space s1.
Proof. destruct s1 as [|c s1]; [intros H; contradiction H|]; reflexivity. Qed.

(** Trimming on the left leaves the end of the string as it is. *)
Lemma TrimLeft_space_end (s : string) :
  ends_with_space s = false -> ends_with_space (TrimLeft_space s) = false.
Proof.
  unfold ends_with_space. intros Hend.
  destruct (TrimLeft_space_split s) as [spaces Hsplit].
  destruct (TrimLeft_space s) as [|c t] eqn:Ht; [reflexivity|].
  rewrite Hsplit, rev_append, starts_with_space_append in Hend; [exact Hend|].
  intros Hrev. apply rev_empty in Hrev. discriminate Hrev.
Qed.

(** What [strings.TrimSpace] returns neither starts nor ends with white
    space, and trimming it again changes nothing. *)
Lemma TrimSpace_trimmed (s : string) :
  starts_with_space (TrimSpace s) = false /\
  ends_with_space (TrimSpace s) = false /\
  TrimSpace (TrimSpace s) = TrimSpace s.
Proof.
  unfold TrimSpace.
  set (u := TrimLeft_space s). set (w := TrimLeft_space (String.rev u)).
  assert (Hu : starts_with_space u = false) by apply TrimLeft_space_start.
  assert (Hw : starts_with_space w = false) by apply TrimLeft_space_start.
  assert (Hend : ends_with_space w = false).
  { apply TrimLeft_space_end. unfold ends_with_space. rewrite rev_rev. exact Hu. }
  split; [exact Hend|]. split.
  - unfold ends_with_space. rewrite rev_rev. exact Hw.
  - rewrite (TrimLeft_space_fixed (String.rev w) Hend), rev_rev.
    rewrite (TrimLeft_space_fixed w Hw). reflexivity.
Qed.

End StringFacts.

(* ===================================================================== *)
(** * More on the listing scanner *)
(* ===================================================================== *)

Section ScannerMore.
Import Models Scraper Observe.

Variable url_Parse : string -> Result string.
Variable listing_cards : string -> Result (list Card).

Lemma ScrapeJobsWithContext_event (s : Config) (net : Utils.Env) (i : Z)
    (params : SearchQuery) :
  exists tr,
    (ScrapeJobsWithContext url_Parse listing_cards s net i params).2
    = EvFetch (buildSearchURL params i) tr.
Proof.
  unfold ScrapeJobsWithContext.
  destruct (Utils.Impl.RetryableHTTPRequest (retryConfig s) net) as [[res|err] tr];
    [destruct (listing_cards (Utils.Body res))|]; eauto.
Qed.

(** The inner loop sends a prefix of the jobs, all of them when it returns
    no error. *)
Lemma send_jobs_prefix (env : Env) (page : Z) (jobs : list Job) :
  forall k, exists js,
    (send_jobs env page k jobs).2 = EvSend <$> js /\
    js `prefix_of` jobs /\
    ((send_jobs env page k jobs).1 = None -> js = jobs).
Proof.
  induction jobs as [|job jobs IH]; intros k; cbn [send_jobs].
  - exists []. split; [reflexivity|]. split; [apply prefix_nil|reflexivity].
  - destruct (send_select env page k) as [err|].
    + exists []. split; [reflexivity|]. split; [apply prefix_nil|discriminate].
    + destruct (IH (S k)) as (js & Htr & Hpre & Hall).
      destruct (send_jobs env page (S k) jobs) as [err tr]. cbn [fst snd] in *.
      exists (job :: js). subst tr. split; [reflexivity|].
      split; [apply prefix_cons; exact Hpre|].
      intros Herr. rewrite (Hall Herr). reflexivity.
Qed.

Lemma fetched_sends_only (jobs : list Job) : fetched (EvSend <$> jobs) = [].
Proof. rewrite <- (app_nil_r (EvSend <$> jobs)). apply fetched_sends. Qed.

Lemma sent_sends_only (jobs : list Job) : sent (EvSend <$> jobs) = jobs.
Proof.
  rewrite <- (app_nil_r (EvSend <$> jobs)), sent_sends. apply app_nil_r.
Qed.

Lemma sent_fetch (url : string) (transport : list Utils.Event) (tr : list Event) :
  sent (EvFetch url transport :: tr) = sent tr.
Proof. reflexivity. Qed.

Lemma scan_pages_prefix (s : Config) (env : Env) (params : SearchQuery)
    (pages : list Z) :
  fetched (scan_pages url_Parse listing_cards s env params pages).2
    `prefix_of` (buildSearchURL params <$> pages) /\
  sent (scan_pages url_Parse listing_cards s env params pages).2
    `prefix_of` mjoin (jobs_of_page url_Parse listing_cards s env params <$> pages).
Proof.
  induction pages as [|i pages [IHf IHs]]; cbn [scan_pages].
  { split; apply prefix_nil. }
  destruct (ctx_done env i) as [err|]; [split; apply prefix_nil|].
  rewrite !fmap_cons. cbn [mjoin]. unfold jobs_of_page at 1.
  destruct (ScrapeJobsWithContext_event s (network env i) i params) as [t Hev].
  destruct (ScrapeJobsWithContext url_Parse listing_cards s (network env i) i params)
    as [[jobs|err] fetch]; cbn [fst snd] in *; subst fetch.
  - destruct (send_jobs_prefix env i jobs 0%nat) as (js & Htr & Hpre & Hall).
    destruct (send_jobs env i 0 jobs) as [[err|] tr]; cbn [fst snd] in *; subst tr.
    + cbn [snd]. rewrite fetched_fetch, sent_fetch, fetched_sends_only, sent_sends_only.
      split; [apply prefix_cons, prefix_nil | apply prefix_app_r; exact Hpre].
    + rewrite (Hall eq_refl).
      destruct (scan_pages url_Parse listing_cards s env params pages) as [err rest].
      cbn [snd] in *.
      rewrite fetched_fetch, sent_fetch, fetched_sends, sent_sends.
      split; [apply prefix_cons; exact IHf | apply prefix_app; exact IHs].
  - cbn [snd]. rewrite fetched_fetch, sent_fetch.
    split; [apply prefix_cons, prefix_nil | apply prefix_nil].
Qed.

(** X6.  Whatever the network and the context do, the pages a scan fetches
    are the first pages of 0, 1, ..., N-1, without gap and in order, and
    the jobs it sends are the first jobs of those pages, in the order of
    the pages and, within a page, of the cards: no page is skipped or
    fetched twice, no job is sent twice or out of order. *)
Theorem scan_fetches_and_sends_in_order
    (s : Config) (env : Env) (N : Z) (query : SearchQuery) :
  fetched (ScrapeLinkedInJobsStreaming url_Parse listing_cards s env N query).2
    `prefix_of` (buildSearchURL query <$> range N) /\
  sent (ScrapeLinkedInJobsStreaming url_Parse listing_cards s env N query).2
    `prefix_of` mjoin (jobs_of_page url_Parse listing_cards s env query <$> range N).
Proof. apply scan_pages_prefix. Qed.

Lemma range_split (i N : Z) :
  (0 <= i < N)%Z ->
  exists post, range N = range i ++ i :: post /\ range (i + 1) = range i ++ [i].
Proof.
  intros Hi. unfold range.
  exists (Z.of_nat <$> seq (S (Z.to_nat i)) (Z.to_nat N - S (Z.to_nat i))).
  replace (Z.to_nat N) with (Z.to_nat i + S (Z.to_nat N - S (Z.to_nat i)))%nat at 1 by lia.
  replace (Z.to_nat (i + 1)) with (Z.to_nat i + 1)%nat by lia.
  rewrite !seq_app, !fmap_app. cbn [seq fmap list_fmap]. simpl.
  rewrite Z2Nat.id by lia. split; reflexivity.
Qed.

Lemma scan_pages_abort (s : Config) (env : Env) (params : SearchQuery)
    (i : Z) (err : error) (post : list Z) (pre : list Z) :
  never_cancelled env ->
  (forall j, j ∈ pre -> page_fetched listing_cards s env j) ->
  (Utils.Impl.RetryableHTTPRequest (retryConfig s) (network env i)).1 = Err err ->
  (scan_pages url_Parse listing_cards s env params (pre ++ i :: post)).1
  = Some (ErrorfW ("error scraping page " +:+ Itoa i +:+ ": ") (Some err)) /\
  fetched (scan_pages url_Parse listing_cards s env params (pre ++ i :: post)).2
  = buildSearchURL params <$> (pre ++ [i]).
Proof.
  intros Hquiet Hpre Hfail.
  induction pre as [|j pre IH]; cbn [app scan_pages].
  - rewrite (proj1 Hquiet i). unfold ScrapeJobsWithContext.
    destruct (Utils.Impl.RetryableHTTPRequest (retryConfig s) (network env i))
      as [r tr]. cbn [fst] in Hfail. subst r. split; reflexivity.
  - rewrite (proj1 Hquiet j).
    destruct (ScrapeJobsWithContext_fetched url_Parse listing_cards s env j params)
      as (jobs & tr & ->).
    { apply Hpre. left. }
    rewrite (send_jobs_all env j jobs Hquiet 0%nat).
    destruct IH as [IH1 IH2].
    { intros k Hk. apply Hpre. right. exact Hk. }
    destruct (scan_pages url_Parse listing_cards s env params (pre ++ i :: post))
      as [e rest]. cbn [fst snd] in *. subst e. split; [reflexivity|].
    rewrite fetched_fetch, fetched_sends, IH2. reflexivity.
Qed.

(** X7.  When the transport fails on page [i], the pages before it having
    been fetched, the scan stops there: it returns the error of the
    transport wrapped in "error scraping page i: ", and page [i] is the
    last page it has asked for. *)
Theorem scan_stops_at_failing_page
    (s : Config) (env : Env) (N : Z) (query : SearchQuery) (i : Z) (err : error) :
  (0 <= i < N)%Z ->
  never_cancelled env ->
  (forall j, (0 <= j < i)%Z -> page_fetched listing_cards s env j) ->
  (Utils.Impl.RetryableHTTPRequest (retryConfig s) (network env i)).1 = Err err ->
  (ScrapeLinkedInJobsStreaming url_Parse listing_cards s env N query).1
  = Some (ErrorfW ("error scraping page " +:+ Itoa i +:+ ": ") (Some err)) /\
  fetched (ScrapeLinkedInJobsStreaming url_Parse listing_cards s env N query).2
  = buildSearchURL query <$> range (i + 1).
Proof.
  intros Hi Hquiet Hpre Hfail. unfold ScrapeLinkedInJobsStreaming.
  destruct (range_split i N Hi) as (post & -> & ->).
  apply scan_pages_abort; [exact Hquiet| |exact Hfail].
  intros j Hj. apply Hpre. unfold range in Hj.
  apply list_elem_of_fmap in Hj as (n & -> & Hn). apply elem_of_seq in Hn. lia.
Qed.



End ScannerMore.

Lemma scan_stops_at_failing_page_witness :
  (Scraper.ScrapeLinkedInJobsStreaming Parse_Path Samples.one_card Scraper.defaults
     Samples.failing_second_page 3 Scraper.frontend_japan).1
  = Some (ErrorfW "error scraping page 1: "
            (Some (Errorf "request failed 503: 503 Service Unavailable"))) /\
  Scraper.fetched
    (Scraper.ScrapeLinkedInJobsStreaming Parse_Path Samples.one_card Scraper.defaults
       Samples.failing_second_page 3 Scraper.frontend_japan).2
  = Scraper.buildSearchURL Scraper.frontend_japan <$> [0; 1]%Z.
Proof.
  apply (scan_stops_at_failing_page Parse_Path Samples.one_card Scraper.defaults
           Samples.failing_second_page 3 Scraper.frontend_japan 1
           (Errorf "request failed 503: 503 Service Unavailable")).
  - lia.
  - split; reflexivity.
  - intros j Hj. assert (j = 0%Z) as -> by lia. eexists _, _. split; reflexivity.
  - reflexivity.
Defined.


(* ===================================================================== *)
(** * More on the records of a page *)
(* ===================================================================== *)

Section RecordFacts.
Import Models Scraper Observe.

Variable url_Parse : string -> Result string.

(** What [extractJobIDFromURL] returns when it returns no error. *)
Lemma extractJobIDFromURL_Ok (link id : string) :
  extractJobIDFromURL url_Parse link = (id, None) ->
  exists path before,
    url_Parse link = Ok path /\
    Base path = before +:+ id /\
    id <> "" /\
    all_digits id = true /\
    ends_with_digit before = false.
Proof.
  unfold extractJobIDFromURL, FindStringSubmatch_digits_at_end.
  destruct (url_Parse link) as [path|err]; [|discriminate].
  destruct (bool_decide (trailing_digits (Base path) = "")) eqn:Hrun; [discriminate|].
  intros [= <-]. apply bool_decide_eq_false in Hrun.
  destruct (trailing_digits_spec (Base path)) as (Hsplit & Hdigits & Hbefore).
  exists path, (String.rev (after_digits (String.rev (Base path)))).
  split; [reflexivity|]. split; [exact Hsplit|]. split; [exact Hrun|].
  split; [exact Hdigits | exact Hbefore].
Qed.

(** X9.  When the identifier is extracted without error, it is the run of
    digits that ends the last segment of the path of the link: it is not
    empty, holds ASCII digits only, ends that segment, and the byte before
    it, if any, is not a digit. *)
Theorem identifier_is_the_trailing_digit_run (link id : string) :
  extractJobIDFromURL url_Parse link = (id, None) ->
  exists path before,
    url_Parse link = Ok path /\
    Base path = before +:+ id /\
    id <> "" /\
    all_digits id = true /\
    ends_with_digit before = false.
Proof.
  apply extractJobIDFromURL_Ok.
Qed.

(** The identifier that is extracted is empty or a string of digits. *)
Lemma extractJobIDFromURL_digits_or_empty (link : string) :
  (extractJobIDFromURL url_Parse link).1 = "" \/
  ((extractJobIDFromURL url_Parse link).1 <> "" /\
   all_digits (extractJobIDFromURL url_Parse link).1 = true).
Proof.
  destruct (extractJobIDFromURL url_Parse link) as [id [err|]] eqn:Hx.
  - left. pose proof (extractJobIDFromURL_error url_Parse link) as H.
    rewrite Hx in H. apply H. discriminate.
  - right. destruct (extractJobIDFromURL_Ok link id Hx)
      as (path & before & _ & _ & Hne & Hd & _).
    split; assumption.
Qed.

(** X10.  The identifier of the job built from a card is the decimal value
    of the identifier extracted from its link, capped at the largest
    [int64]; it is 0 when nothing was extracted and is never negative. *)
Theorem job_identifier_is_capped_value (c : Card) :
  exists v,
    digits_value 0 (extractJobIDFromURL url_Parse (TrimSpace (link_href c))).1 = Some v /\
    ID (job_of_card url_Parse c).1 = Z.min v MaxInt64 /\
    (0 <= ID (job_of_card url_Parse c).1 <= MaxInt64)%Z.
Proof.
  unfold job_of_card.
  destruct (extractJobIDFromURL_digits_or_empty (TrimSpace (link_href c)))
    as [Hempty | [Hne Hdigits]];
    destruct (extractJobIDFromURL url_Parse (TrimSpace (link_href c))) as [id err];
    cbn [fst] in *.
  - subst id. exists 0%Z. cbn. unfold MaxInt64. repeat split; lia.
  - destruct (digits_value_digits id 0 Hdigits (Z.le_refl 0)) as (v & Hv & Hpos).
    exists v. split; [exact Hv|].
    rewrite (ParseInt_digits id v Hne Hdigits Hv).
    unfold MaxInt64.
    destruct (2 ^ 63 <=? v)%Z eqn:Hbig; cbn [fst ID].
    + apply Z.leb_le in Hbig. split; lia.
    + apply Z.leb_gt in Hbig. split; lia.
Qed.

(** X11.  Every job that a page yields has a title, a company, a location
    and a link that are not empty, and its five texts are trimmed: trimming
    them again changes nothing. *)
Theorem jobs_of_a_page_have_their_texts (cards : list Card) :
  Forall (fun job =>
            (Title job <> "" /\ Company job <> "" /\
             Location job <> "" /\ JobLink job <> "") /\
            (TrimSpace (Title job) = Title job /\
             TrimSpace (Company job) = Company job /\
             TrimSpace (CompanyLink job) = CompanyLink job /\
             TrimSpace (Location job) = Location job /\
             TrimSpace (JobLink job) = JobLink job))
         (jobs_of_cards url_Parse cards).
Proof.
  apply Forall_forall. intros job Hin.
  apply list_elem_of_omap in Hin as (c & _ & Hc).
  unfold job_of_card in Hc.
  destruct (extractJobIDFromURL url_Parse (TrimSpace (link_href c))) as [jobId e].
  destruct (ParseInt jobId) as [jobIdInt e'].
  destruct (bool_decide (TrimSpace (title_text c) <> "")) eqn:H1; [|discriminate].
  destruct (bool_decide (TrimSpace (company_text c) <> "")) eqn:H2; [|discriminate].
  destruct (bool_decide (TrimSpace (location_text c) <> "")) eqn:H3; [|discriminate].
  destruct (bool_decide (TrimSpace (link_href c) <> "")) eqn:H4; [|discriminate].
  injection Hc as <-. cbn [Title Company CompanyLink Location JobLink].
  apply bool_decide_eq_true in H1, H2, H3, H4.
  split; [repeat split; assumption|].
  repeat split; apply TrimSpace_trimmed.
Qed.

End RecordFacts.

Lemma identifier_is_the_trailing_digit_run_witness :
  exists path before,
    Parse_Path Scraper.link_with_id = Ok path /\
    Base path = before +:+ "12345" /\
    Observe.ends_with_digit before = false.
Proof.
  destruct (identifier_is_the_trailing_digit_run Parse_Path Scraper.link_with_id
              "12345" eq_refl) as (path & before & H1 & H2 & _ & _ & H3).
  exists path, before. repeat split; assumption.
Defined.

(* ===================================================================== *)
(** * More on the detail fetcher and on the configuration *)
(* ===================================================================== *)

Section DetailFacts.
Import Models Scraper Observe.

(** The criteria that [parseJobDescription] collects: every entry comes
    from an item of the list, trimmed, and has neither an empty header nor
    an empty value. *)
Lemma criteria_entries (items : list (string * string)) :
  forall (m : gmap string string),
    (forall k v, m !! k = Some v -> k <> "" /\ v <> "") ->
    forall k v,
      foldl (fun (m : gmap string string) '(h, v) =>
               let header := TrimSpace h in
               let value := TrimSpace v in
               if bool_decide (header <> "") && bool_decide (value <> "")
               then <[header := value]> m else m) m items !! k = Some v ->
      k <> "" /\ v <> "".
Proof.
  induction items as [|[h x] items IH]; intros m Hm k v; cbn [foldl].
  - apply Hm.
  - apply IH. intros k' v'.
    destruct (bool_decide (TrimSpace h <> "")) eqn:Hh;
      destruct (bool_decide (TrimSpace x <> "")) eqn:Hx; cbn [andb]; try apply Hm.
    apply bool_decide_eq_true in Hh, Hx.
    rewrite lookup_insert. destruct (decide (TrimSpace h = k')) as [<-|Hne].
    + intros [= <-]. split; assumption.
    + apply Hm.
Qed.

Variable detail_document : string -> Result DetailDocument.

Lemma ScrapeJobDescriptionWithContext_Ok
    (s : Config) (net : Utils.Env) (job : Job)
    (description : string) (criteria : gmap string string) :
  (ScrapeJobDescriptionWithContext detail_document s net job).1
  = Ok (description, criteria) ->
  description <> "" /\
  TrimSpace description = description /\
  (forall k v, criteria !! k = Some v -> k <> "" /\ v <> "") /\
  exists resp tr,
    Utils.Impl.RetryableHTTPRequest (retryConfig s) net = (Ok resp, tr) /\
    Utils.is_2xx resp = true.
Proof.
  unfold ScrapeJobDescriptionWithContext.
  destruct (Utils.Impl.RetryableHTTPRequest (retryConfig s) net) as [[resp|err] tr] eqn:Hrun;
    [|discriminate].
  destruct (detail_document (Utils.Body resp)) as [doc|err]; [|discriminate].
  unfold parseJobDescription.
  destruct (bool_decide (TrimSpace (description_markup doc) = "")) eqn:Hblank;
    [discriminate|].
  cbn [fst]. intros [= <- <-].
  apply bool_decide_eq_false in Hblank.
  destruct (TrimSpace_trimmed (description_markup doc)) as (_ & _ & Hidem).
  rewrite Hidem. split; [exact Hblank|]. split; [exact Hidem|]. split.
  - apply criteria_entries. intros k v Hk. rewrite lookup_empty in Hk. discriminate.
  - exists resp, tr. split; [reflexivity|].
    unfold Utils.Impl.RetryableHTTPRequest in Hrun.
    apply attempts_Ok in Hrun as [H2 _]. exact H2.
Qed.

(** X12.  A detail fetch that succeeds returns a description that is not
    empty and is trimmed, and criteria without empty name and without
    empty value; it was answered by a 2xx response. *)
Theorem fetched_description_is_not_empty
    (s : Config) (net : Utils.Env) (job : Job)
    (description : string) (criteria : gmap string string) :
  (ScrapeJobDescriptionWithContext detail_document s net job).1
  = Ok (description, criteria) ->
  description <> "" /\
  TrimSpace description = description /\
  (forall k v, criteria !! k = Some v -> k <> "" /\ v <> "") /\
  exists resp tr,
    Utils.Impl.RetryableHTTPRequest (retryConfig s) net = (Ok resp, tr) /\
    Utils.is_2xx resp = true.
Proof. apply ScrapeJobDescriptionWithContext_Ok. Qed.


Variable url_Parse : string -> Result string.
Variable listing_cards : string -> Result (list Card).

(** X14.  A scraper configured with a negative [MaxRetries] fetches
    nothing: [NewScraper] keeps the setting, and every listing fetch and
    every detail fetch fails with the exhaustion error without a single
    round trip. *)
Theorem negative_retries_fetch_nothing
    (config : Config) (net : Utils.Env) (page : Z) (params : SearchQuery) (job : Job) :
  (MaxRetries config < 0)%Z ->
  ScrapeJobsWithContext url_Parse listing_cards (NewScraper config) net page params
  = (Err (Utils.exhaustion_error None), EvFetch (buildSearchURL params page) []) /\
  ScrapeJobDescriptionWithContext detail_document (NewScraper config) net job
  = (Err (Utils.exhaustion_error None),
     EvFetch (buildJobDescriptionSearchURL (JobLink job)) []).
Proof.
  intros Hneg.
  assert (Hkept : (Utils.MaxRetries (retryConfig (NewScraper config)) < 0)%Z).
  { cbn. destruct (MaxRetries config =? 0)%Z eqn:H0.
    - apply Z.eqb_eq in H0. lia.
    - exact Hneg. }
  assert (Hrun : Utils.Impl.RetryableHTTPRequest (retryConfig (NewScraper config)) net
                 = (Err (Utils.exhaustion_error None), [])).
  { unfold Utils.Impl.RetryableHTTPRequest.
    replace (Z.to_nat (Utils.MaxRetries (retryConfig (NewScraper config)) + 1))
      with 0%nat by lia.
    reflexivity. }
  unfold ScrapeJobsWithContext, ScrapeJobDescriptionWithContext.
  rewrite Hrun. split; reflexivity.
Qed.

End DetailFacts.

Lemma fetched_description_is_not_empty_witness :
  "We build things." <> "" /\ TrimSpace "We build things." = "We build things.".
Proof.
  destruct (fetched_description_is_not_empty Pipeline.described Scraper.defaults
              (Utils.always 200 "200 OK") Pipeline.a_job "We build things."
              (<["Seniority level" := "Mid-Senior level"]> ∅) eq_refl)
    as (H1 & H2 & _).
  split; assumption.
Defined.

Lemma negative_retries_fetch_nothing_witness :
  Scraper.ScrapeJobsWithContext Parse_Path Samples.one_card
    (Scraper.NewScraper Samples.no_retries) (Utils.always 200 "200 OK") 0
    Scraper.frontend_japan
  = (Err (Utils.exhaustion_error None),
     Scraper.EvFetch (Scraper.buildSearchURL Scraper.frontend_japan 0) []).
Proof.
  apply (negative_retries_fetch_nothing Pipeline.described Parse_Path Samples.one_card
           Samples.no_retries (Utils.always 200 "200 OK") 0 Scraper.frontend_japan
           Pipeline.a_job).
  simpl. lia.
Defined.

(* ===================================================================== *)
(** * Facts about the rendering of the description *)
(* ===================================================================== *)

Section MarkupFacts.
Import Markup.

(** A node whose text is blank adds nothing to the builder. *)
Lemma blank_node_writes_nothing (n : Node) : blank n -> write_node n = "".
Proof.
  unfold blank. destruct n as [data|data|tag children]; intros Hblank.
  - exact Hblank.
  - reflexivity.
  - cbn [write_node]. rewrite bool_decide_eq_true_2 by exact Hblank. reflexivity.
Qed.

Lemma blank_nodes_write_nothing (l : list Node) :
  Forall blank l -> write_nodes l = "".
Proof.
  induction 1 as [|n l Hn _ IH]; [reflexivity|].
  cbn [write_nodes]. rewrite (blank_node_writes_nothing n Hn), IH. reflexivity.
Qed.

(** X15.  A description whose nodes are all blank (white space, comments,
    elements without text such as line breaks) is rendered as the empty
    string, and [parseJobDescription] answers "job description not found";
    in particular a line break adds no newline. *)
Theorem blank_markup_gives_no_description
    (selection : list Node) (items : list (string * string)) :
  Forall blank (mjoin (Contents <$> selection)) ->
  parseHTMLContent selection = "" /\
  Scraper.parseJobDescription (detail_of selection items)
  = Err (Errorf "job description not found") /\
  write_node (ElementNode "br" []) = "".
Proof.
  intros Hblank.
  assert (Hnone : parseHTMLContent selection = "")
    by (apply blank_nodes_write_nothing; exact Hblank).
  split; [exact Hnone|]. split; [|reflexivity].
  unfold Scraper.parseJobDescription, detail_of. cbn [Scraper.description_markup].
  rewrite Hnone. destruct (bool_decide (0 < length selection)%nat); reflexivity.
Qed.

End MarkupFacts.

Lemma blank_markup_gives_no_description_witness :
  Markup.parseHTMLContent Markup.empty_markup = "" /\
  Scraper.parseJobDescription (Markup.detail_of Markup.empty_markup [])
  = Err (Errorf "job description not found").
Proof.
  destruct (blank_markup_gives_no_description Markup.empty_markup []) as (H1 & H2 & _).
  - repeat constructor.
  - split; assumption.
Defined.

(* ===================================================================== *)
(** * More on the workers *)
(* ===================================================================== *)

Section WorkerMore.
Import Models Pipeline.

Variable detail_document : string -> Result Scraper.DetailDocument.
Variable s : Scraper.Config.

Lemma on_receive_Sending (d : Delivery) (result : JobWithDescription) :
  on_receive detail_document s d = Sending result ->
  TheJob result = job d /\
  JobID (TheDescription result) = ID (job d) /\
  Description (TheDescription result) <> "".
Proof.
  unfold on_receive. destruct (cancelled d); [discriminate|].
  destruct (scrape detail_document s (net d) (job d)) as [[jd jc]|err] eqn:Hs;
    [|discriminate].
  intros [= <-]. cbn. split; [reflexivity|]. split; [reflexivity|].
  unfold scrape in Hs.
  apply ScrapeJobDescriptionWithContext_Ok in Hs as [Hne _]. exact Hne.
Qed.

(** X16.  Whatever the network and the context do, a worker of
    [GetJobDescription] sends results only for jobs it was handed, at most
    one for each and in the order it was handed them; every result carries
    the identifier of its job in its description, and a description that is
    not empty. *)
Theorem worker_sends_results_for_its_jobs (ds : list Delivery) :
  (TheJob <$> worker_sends detail_document s ds) `sublist_of` (job <$> ds) /\
  Forall (fun r => JobID (TheDescription r) = ID (TheJob r) /\
                   Description (TheDescription r) <> "")
         (worker_sends detail_document s ds).
Proof.
  induction ds as [|d ds [IHsub IHall]]; cbn [worker_sends].
  { split; [apply sublist_nil|constructor]. }
  rewrite fmap_cons.
  destruct (on_receive detail_document s d) as [|result|] eqn:Hd.
  - split; [apply sublist_cons; exact IHsub | exact IHall].
  - destruct (on_receive_Sending d result Hd) as (Hjob & Hid & Hne).
    rewrite fmap_cons, Hjob. split; [apply sublist_skip; exact IHsub|].
    constructor; [|exact IHall]. rewrite Hjob. split; assumption.
  - split; [apply sublist_nil_l | constructor].
Qed.

(** X17.  Whatever happens, [jobDescriptionWorker] sends results for the
    first jobs it is handed, one for each and in order, up to the point
    where it finds the context done; a result that holds an error holds no
    description and no criteria, one without error holds a description. *)
Theorem jobDescriptionWorker_results_follow_its_jobs (ds : list LimitedDelivery) :
  (ResultJob <$> jobDescriptionWorker detail_document s ds)
    `prefix_of` ((fun d => job (delivery d)) <$> ds) /\
  Forall (fun r => match ResultError r with
                   | Some _ => ResultDescription r = "" /\ ResultCriteria r = ∅
                   | None => ResultDescription r <> ""
                   end)
         (jobDescriptionWorker detail_document s ds).
Proof.
  induction ds as [|d ds [IHpre IHall]]; cbn [jobDescriptionWorker].
  { split; [apply prefix_nil|constructor]. }
  rewrite fmap_cons.
  destruct (cancelled (delivery d)); [split; [apply prefix_nil|constructor]|].
  destruct (limiter_Wait d); [split; [apply prefix_nil|constructor]|].
  destruct (send_cancelled d); [split; [apply prefix_nil|constructor]|].
  rewrite fmap_cons. split.
  - destruct (scrape detail_document s (net (delivery d)) (job (delivery d)))
      as [[description criteria]|err]; cbn [ResultJob]; apply prefix_cons; exact IHpre.
  - constructor; [|exact IHall].
    destruct (scrape detail_document s (net (delivery d)) (job (delivery d)))
      as [[description criteria]|err] eqn:Hs; cbn [ResultError ResultDescription ResultCriteria].
    + unfold scrape in Hs.
      apply ScrapeJobDescriptionWithContext_Ok in Hs as [Hne _]. exact Hne.
    + split; reflexivity.
Qed.

(** X18.  When the context stays alive, [jobDescriptionWorker] sends one
    result for every job it is handed, failed fetches included, in the
    order of the jobs. *)
Theorem jobDescriptionWorker_answers_every_job (ds : list LimitedDelivery) :
  Forall (fun d => cancelled (delivery d) = false /\ limiter_Wait d = None /\
                   send_cancelled d = false) ds ->
  ResultJob <$> jobDescriptionWorker detail_document s ds
  = (fun d => job (delivery d)) <$> ds.
Proof.
  induction 1 as [|d ds (Hc & Hl & Hs) _ IH]; [reflexivity|].
  cbn [jobDescriptionWorker]. rewrite Hc, Hl, Hs, !fmap_cons, IH.
  destruct (scrape detail_document s (net (delivery d)) (job (delivery d)))
    as [[description criteria]|err]; reflexivity.
Qed.

End WorkerMore.

Lemma jobDescriptionWorker_answers_every_job_witness :
  Pipeline.ResultJob
    <$> Pipeline.jobDescriptionWorker Pipeline.described Scraper.defaults
          [ {| Pipeline.delivery := Pipeline.not_found;
               Pipeline.limiter_Wait := None; Pipeline.send_cancelled := false |};
            {| Pipeline.delivery := Pipeline.found;
               Pipeline.limiter_Wait := None; Pipeline.send_cancelled := false |} ]
  = [Pipeline.a_job; Pipeline.a_job].
Proof.
  apply (jobDescriptionWorker_answers_every_job Pipeline.described Scraper.defaults).
  repeat constructor.
Defined.

(* ===================================================================== *)
(** * More on the repositories and on the orchestrator *)
(* ===================================================================== *)

Section RepoMore.
Import Models Repo Queries.

Variable range_jobMap : gmap Z Job -> list Job.
Hypothesis range_jobMap_values : forall m, range_jobMap m ≡ₚ (map_to_list m).*2.

(** [SaveJobs] touches neither the descriptions nor the state of the
    server. *)
Lemma SaveJobs_frame (batch : list Job) (db : DB) :
  job_descriptions (SaveJobs range_jobMap batch db).2 = job_descriptions db /\
  failure (SaveJobs range_jobMap batch db).2 = failure db.
Proof.
  unfold SaveJobs. destruct (bool_decide (length batch = 0%nat)); [split; reflexivity|].
  unfold Exec. destruct (failure db); [split; reflexivity|].
  destruct (bool_decide (NoDup _)); split; reflexivity.
Qed.

Lemma GetJobByID_after_SaveJobs (batch : list Job) (db : DB) (id : Z) :
  failure db = None ->
  GetJobByID id (SaveJobs range_jobMap batch db).2
  = match last_with_id id batch with
    | Some job => Ok job
    | None => GetJobByID id db
    end.
Proof.
  intros Hup.
  destruct (SaveJobs_upserts range_jobMap range_jobMap_values batch db Hup)
    as (db' & -> & Hup' & Hjobs & _).
  unfold GetJobByID. cbn [snd]. rewrite Hup', Hup, Hjobs.
  destruct (last_with_id id batch); reflexivity.
Qed.

Section Marshal.
Variable json_Marshal : gmap string string -> Result string.
Variable json_Unmarshal : string -> Result (gmap string string).
Variable encode : gmap string string -> string.
Hypothesis json_Marshal_encodes : forall m, json_Marshal m = Ok (encode m).

Lemma description_rows_encoded (batch : list JobDescription) :
  description_rows json_Marshal batch = Ok (row_of encode <$> batch).
Proof.
  induction batch as [|jd batch IH]; [reflexivity|].
  cbn [description_rows]. rewrite json_Marshal_encodes, IH. reflexivity.
Qed.

Lemma row_ids (batch : list JobDescription) :
  (fun row : Z * string * string => row.1.1) <$> (row_of encode <$> batch)
  = JobID <$> batch.
Proof. rewrite <- list_fmap_compose. reflexivity. Qed.

Lemma foldl_upsert_description_other
    (rows : list (Z * string * string)) (table : gmap Z (string * string)) (id : Z) :
  id ∉ (fun row : Z * string * string => row.1.1) <$> rows ->
  foldl upsert_description table rows !! id = table !! id.
Proof.
  revert table. induction rows as [|row rows IH]; intros table Hid; [reflexivity|].
  rewrite fmap_cons in Hid. apply not_elem_of_cons in Hid as [Hne Hid].
  cbn [foldl]. rewrite (IH _ Hid). unfold upsert_description.
  apply lookup_insert_ne. congruence.
Qed.



End Marshal.
End RepoMore.

Section StoreFacts.
Import Models Repo Queries.

Variable range_jobMap : gmap Z Job -> list Job.
Variable json_Marshal : gmap string string -> Result string.
Variable json_Unmarshal : string -> Result (gmap string string).
Variable encode : gmap string string -> string.

(** X19.  After [SaveJobs] on a server that can be reached, [GetJobByID]
    finds, for an identifier of the batch, the last record of the batch
    with that identifier, and for any other identifier what it found
    before, the error "job with ID ... not found" included. *)
Theorem saved_job_is_found (batch : list Job) (db : DB) (id : Z) :
  (forall m, range_jobMap m ≡ₚ (map_to_list m).*2) ->
  failure db = None ->
  GetJobByID id (SaveJobs range_jobMap batch db).2
  = match last_with_id id batch with
    | Some job => Ok job
    | None => GetJobByID id db
    end.
Proof.
  intros Horder Hup. apply GetJobByID_after_SaveJobs; assumption.
Qed.

Lemma description_rows_ids (batch : list JobDescription)
    (rows : list (Z * string * string)) :
  description_rows json_Marshal batch = Ok rows ->
  (fun row : Z * string * string => row.1.1) <$> rows = JobID <$> batch /\
  (fun row : Z * string * string => row.1.2) <$> rows = Description <$> batch.
Proof.
  revert rows. induction batch as [|jd batch IH]; intros rows; cbn [description_rows].
  - intros [= <-]. split; reflexivity.
  - destruct (json_Marshal (Criteria jd)) as [criteriaByte|err]; [|discriminate].
    destruct (description_rows json_Marshal batch) as [rest|err]; [|discriminate].
    intros [= <-]. destruct (IH rest eq_refl) as [H1 H2].
    rewrite !fmap_cons, H1, H2. split; reflexivity.
Qed.

(** X20.  [SaveJobDescriptions] on a batch that is not empty either fails
    to marshal some criteria, and then returns that error without sending
    anything, or sends exactly one statement, with one row for each
    description of the batch, in the order of the batch and without
    removing repeated identifiers; it never changes the table of jobs. *)
Theorem SaveJobDescriptions_sends_the_batch_as_it_is
    (batch : list JobDescription) (db : DB) :
  batch <> [] ->
  match description_rows json_Marshal batch with
  | Err err => SaveJobDescriptions json_Marshal batch db = (Some err, db)
  | Ok rows =>
      executed (SaveJobDescriptions json_Marshal batch db).2
      = executed db ++ [UpsertJobDescriptions rows] /\
      (fun row : Z * string * string => row.1.1) <$> rows = JobID <$> batch /\
      (fun row : Z * string * string => row.1.2) <$> rows = Description <$> batch /\
      jobs (SaveJobDescriptions json_Marshal batch db).2 = jobs db
  end.
Proof.
  intros Hne. unfold SaveJobDescriptions.
  rewrite bool_decide_eq_false_2 by (destruct batch; [contradiction Hne; reflexivity|discriminate]).
  destruct (description_rows json_Marshal batch) as [rows|err] eqn:Hrows; [|reflexivity].
  destruct (description_rows_ids batch rows Hrows) as [Hids Hdescs].
  assert (Hexec : executed (Exec (UpsertJobDescriptions rows) db).2
                  = executed db ++ [UpsertJobDescriptions rows] /\
                  jobs (Exec (UpsertJobDescriptions rows) db).2 = jobs db).
  { unfold Exec. destruct (failure db); [split; reflexivity|].
    destruct (bool_decide (NoDup _)); cbn [negb]; [|split; reflexivity].
    destruct (bool_decide (Forall _ rows)); split; reflexivity. }
  destruct (Exec (UpsertJobDescriptions rows) db) as [[err|] db']; cbn [snd] in *;
    destruct Hexec as [He Hj]; repeat split; assumption.
Qed.


(** X22.  A description that was never saved is read as the empty text
    with no criteria and no error, where a job that was never saved is an
    error: after any [SaveJobs] and [SaveJobDescriptions] on the empty
    database, an identifier outside both batches gives the one and the
    other. *)
Theorem unsaved_description_is_empty_unsaved_job_is_an_error
    (jobs : list Job) (descriptions : list JobDescription) (id : Z) :
  (forall m, range_jobMap m ≡ₚ (map_to_list m).*2) ->
  id ∉ ID <$> jobs ->
  id ∉ JobID <$> descriptions ->
  GetJobByID id
    (SaveJobDescriptions json_Marshal descriptions
       (SaveJobs range_jobMap jobs empty_db).2).2
  = Err (Errorf ("job with ID " +:+ Itoa id +:+ " not found")) /\
  GetJobDescriptionByJobID json_Unmarshal id
    (SaveJobDescriptions json_Marshal descriptions
       (SaveJobs range_jobMap jobs empty_db).2).2
  = Ok ("", ∅).
Proof.
  intros Horder Hjob Hdesc.
  destruct (SaveJobs_upserts range_jobMap Horder jobs empty_db eq_refl)
    as (db1 & Hsave & Hup1 & Hjobs1 & _).
  destruct (SaveJobs_frame range_jobMap jobs empty_db) as [Hd1 _].
  rewrite Hsave in *. cbn [snd] in *.
  assert (Hnone : last_with_id id jobs = None).
  { destruct (last_with_id id jobs) as [job|] eqn:Hl; [|reflexivity].
    apply last_with_id_Some in Hl as [<- Hin].
    contradiction Hjob. apply list_elem_of_fmap. eauto. }
  assert (Hj1 : Repo.jobs db1 !! id = None).
  { rewrite Hjobs1, Hnone. apply lookup_empty. }
  assert (Hdb : failure (SaveJobDescriptions json_Marshal descriptions db1).2 = None /\
                Repo.jobs (SaveJobDescriptions json_Marshal descriptions db1).2
                = Repo.jobs db1 /\
                job_descriptions (SaveJobDescriptions json_Marshal descriptions db1).2 !! id
                = None).
  { assert (Hnil : job_descriptions db1 !! id = None)
      by (rewrite Hd1; apply lookup_empty).
    unfold SaveJobDescriptions.
    destruct (bool_decide (length descriptions = 0%nat));
      [split; [exact Hup1|split; [reflexivity|exact Hnil]]|].
    destruct (description_rows json_Marshal descriptions) as [rows|err] eqn:Hrows;
      [|split; [exact Hup1|split; [reflexivity|exact Hnil]]].
    destruct (description_rows_ids descriptions rows Hrows) as [Hids _].
    unfold Exec. rewrite Hup1.
    destruct (bool_decide (NoDup _)); cbn [negb];
      [|split; [reflexivity|split; [reflexivity|exact Hnil]]].
    destruct (bool_decide (Forall _ rows)); cbn [negb];
      [|split; [reflexivity|split; [reflexivity|exact Hnil]]].
    split; [reflexivity|split; [reflexivity|]]. cbn [snd job_descriptions].
    rewrite foldl_upsert_description_other by (rewrite Hids; exact Hdesc).
    exact Hnil. }
  destruct Hdb as (Hup2 & Hj2 & Hd2).
  unfold GetJobByID, GetJobDescriptionByJobID.
  rewrite Hup2, Hj2, Hj1, Hd2. split; reflexivity.
Qed.

End StoreFacts.

Section OrchestratorFacts.
Import Models Repo Queries.

Variable range_jobMap : gmap Z Job -> list Job.
Variable rows_order : gmap Z Job -> list Job.
Variable json_Marshal : gmap string string -> Result string.
Variable encode : gmap string string -> string.

Lemma coherent_ids (results : list JobWithDescription) :
  coherent results ->
  JobID <$> (TheDescription <$> results) = ID <$> (TheJob <$> results).
Proof.
  unfold coherent. induction 1 as [|r results Hr _ IH]; [reflexivity|].
  rewrite !fmap_cons, Hr, IH. reflexivity.
Qed.

Lemma foldl_upsert_keyed (rows : list Job) (table : gmap Z Job) :
  (forall k job, table !! k = Some job -> ID job = k) ->
  forall k job, foldl upsert_job table rows !! k = Some job -> ID job = k.
Proof.
  intros Hkey k job. rewrite foldl_upsert_lookup.
  destruct (last_with_id k rows) as [later|] eqn:Hl.
  - intros [= <-]. apply last_with_id_Some in Hl as [Hid _]. exact Hid.
  - apply Hkey.
Qed.

(** X23.  [GetAllJobs] after [SaveJobs], on a server that can be reached
    and a table whose rows are stored under their identifier: the rows
    returned have pairwise different identifiers, and a job is among them
    exactly when it is the last record of the batch with its identifier,
    or was stored before under an identifier the batch does not have. *)
Theorem saved_jobs_are_listed_once (batch : list Job) (db : DB) :
  (forall m, range_jobMap m ≡ₚ (map_to_list m).*2) ->
  (forall m, rows_order m ≡ₚ (map_to_list m).*2) ->
  failure db = None ->
  (forall k job, jobs db !! k = Some job -> ID job = k) ->
  exists rows,
    GetAllJobs rows_order (SaveJobs range_jobMap batch db).2 = Ok rows /\
    NoDup (ID <$> rows) /\
    (forall job, job ∈ rows <->
       match last_with_id (ID job) batch with
       | Some later => later = job
       | None => jobs db !! ID job = Some job
       end).
Proof.
  intros Horder Hrows Hup Hkey.
  destruct (SaveJobs_upserts range_jobMap Horder batch db Hup)
    as (db' & -> & Hup' & Hjobs & _).
  cbn [snd]. unfold GetAllJobs. rewrite Hup'.
  assert (Hkey' : forall k job, jobs db' !! k = Some job -> ID job = k).
  { intros k job. rewrite Hjobs.
    destruct (last_with_id k batch) as [later|] eqn:Hl.
    - intros [= <-]. apply last_with_id_Some in Hl as [Hid _]. exact Hid.
    - apply Hkey. }
  eexists. split; [reflexivity|]. split.
  - rewrite Hrows, (keyed_values _ Hkey'). apply NoDup_fst_map_to_list.
  - intros job. rewrite Hrows, list_elem_of_fmap. split.
    + intros ([k job'] & -> & Hin). cbn [snd].
      apply elem_of_map_to_list in Hin.
      pose proof (Hkey' _ _ Hin) as Hid. subst k.
      rewrite Hjobs in Hin.
      destruct (last_with_id (ID job') batch); [congruence|exact Hin].
    + intros Hlast. exists (ID job, job). split; [reflexivity|].
      apply elem_of_map_to_list. rewrite Hjobs.
      destruct (last_with_id (ID job) batch); [congruence|exact Hlast].
Qed.


(** X25.  [ProcessJobsStreaming] on results that repeat an identifier,
    each description naming its job, with criteria that [json.Marshal]
    accepts and a server that can be reached: [SaveJobs] removes the
    repetition and stores the jobs, [SaveJobDescriptions] sends every
    description as it came, the server refuses the statement, and the
    call returns "failed to save job descriptions: ..." with a job stored
    under every identifier received and the table of descriptions as it
    was. *)
Theorem repeated_identifier_loses_every_description
    (results : list JobWithDescription) (db : DB) :
  (forall m, range_jobMap m ≡ₚ (map_to_list m).*2) ->
  (forall m, json_Marshal m = Ok (encode m)) ->
  failure db = None ->
  coherent results ->
  ~ NoDup (ID <$> (TheJob <$> results)) ->
  exists db',
    Pipeline.ProcessJobsStreaming range_jobMap json_Marshal results db
    = (Some (ErrorfW "failed to save job descriptions: "
               (Some (Errorf ("error saving job descriptions: " +:+
                              "pq: ON CONFLICT DO UPDATE command cannot affect row a second time")))),
       db') /\
    (forall r, r ∈ results -> is_Some (jobs db' !! ID (TheJob r))) /\
    job_descriptions db' = job_descriptions db.
Proof.
  intros Horder Henc Hup Hco Hdup.
  destruct (SaveJobs_upserts range_jobMap Horder (TheJob <$> results) db Hup)
    as (db1 & Hsave & Hup1 & Hjobs1 & _).
  destruct (SaveJobs_frame range_jobMap (TheJob <$> results) db) as [Hd1 _].
  rewrite Hsave in Hd1. cbn [snd] in Hd1.
  assert (Hne : results <> []).
  { intros ->. apply Hdup. constructor. }
  unfold Pipeline.ProcessJobsStreaming. rewrite Hsave.
  unfold SaveJobDescriptions.
  rewrite bool_decide_eq_false_2 by (destruct results; [congruence|discriminate]).
  rewrite (description_rows_encoded json_Marshal encode Henc).
  unfold Exec. rewrite Hup1, (row_ids encode), (coherent_ids results Hco).
  rewrite bool_decide_eq_false_2 by exact Hdup. cbn [negb].
  eexists. split; [reflexivity|]. cbn [jobs job_descriptions].
  split; [|exact Hd1].
  intros r Hr. rewrite Hjobs1.
  destruct (last_with_id (ID (TheJob r)) (TheJob <$> results)) as [later|] eqn:Hl;
    [eauto|].
  exfalso. clear - Hr Hl.
  induction results as [|x results IH]; [inversion Hr|].
  rewrite fmap_cons in Hl. cbn [last_with_id] in Hl.
  destruct (last_with_id (ID (TheJob r)) (TheJob <$> results)) eqn:Hrest; [discriminate|].
  apply elem_of_cons in Hr as [->|Hr]; [|exact (IH Hr eq_refl)].
  rewrite bool_decide_eq_true_2 in Hl by reflexivity. discriminate.
Qed.

(** X26.  [ProcessJobsStreaming] when the server cannot be reached and
    there is a result: the call returns "failed to save jobs to database:
    ..." around the error of the server, after one statement, the one for
    the jobs; no statement for the descriptions is sent and no table
    changes. *)
Theorem failed_jobs_statement_skips_the_descriptions
    (results : list JobWithDescription) (db : DB) (err : error) :
  failure db = Some err ->
  results <> [] ->
  exists rows db',
    Pipeline.ProcessJobsStreaming range_jobMap json_Marshal results db
    = (Some (ErrorfW "failed to save jobs to database: "
               (Some (Errorf ("error inserting jobs: " +:+ Error err)))),
       db') /\
    executed db' = executed db ++ [UpsertJobs rows] /\
    jobs db' = jobs db /\
    job_descriptions db' = job_descriptions db.
Proof.
  intros Hdown Hne.
  unfold Pipeline.ProcessJobsStreaming, SaveJobs.
  rewrite bool_decide_eq_false_2 by (destruct results; [congruence|discriminate]).
  unfold Exec. rewrite Hdown.
  eexists. eexists. split; [reflexivity|]. repeat split.
Qed.

End OrchestratorFacts.

Lemma saved_job_is_found_witness :
  Queries.GetJobByID 7 (Repo.SaveJobs Repo.in_key_order Repo.two_titles Repo.empty_db).2
  = Ok (Repo.titled 7 "Senior Frontend Developer") /\
  Queries.GetJobByID 9 (Repo.SaveJobs Repo.in_key_order Repo.two_titles Repo.empty_db).2
  = Err (Errorf "job with ID 9 not found").
Proof.
  rewrite !(saved_job_is_found Repo.in_key_order Repo.two_titles Repo.empty_db _
              (fun m => reflexivity _) eq_refl).
  split; reflexivity.
Defined.

Lemma SaveJobDescriptions_sends_the_batch_as_it_is_witness :
  Repo.executed
    (Repo.SaveJobDescriptions (fun m => Ok (Queries.count_entries m))
       (Models.TheDescription <$> Queries.same_id_twice) Repo.empty_db).2
  = [Repo.UpsertJobDescriptions [(0, "We build things.", "0"); (0, "We run things.", "0")]].
Proof.
  pose proof (SaveJobDescriptions_sends_the_batch_as_it_is
                (fun m => Ok (Queries.count_entries m))
                (Models.TheDescription <$> Queries.same_id_twice) Repo.empty_db
                ltac:(intros H; apply (f_equal length) in H; cbv in H; discriminate H)) as H.
  destruct H as [H _]. exact H.
Defined.


Lemma unsaved_description_is_empty_unsaved_job_is_an_error_witness :
  Queries.GetJobByID 9
    (Repo.SaveJobDescriptions (fun m => Ok (Queries.count_entries m))
       (Models.TheDescription <$> Queries.two_results)
       (Repo.SaveJobs Repo.in_key_order (Models.TheJob <$> Queries.two_results)
          Repo.empty_db).2).2
  = Err (Errorf "job with ID 9 not found") /\
  Queries.GetJobDescriptionByJobID (fun s => Ok ∅) 9
    (Repo.SaveJobDescriptions (fun m => Ok (Queries.count_entries m))
       (Models.TheDescription <$> Queries.two_results)
       (Repo.SaveJobs Repo.in_key_order (Models.TheJob <$> Queries.two_results)
          Repo.empty_db).2).2
  = Ok ("", ∅).
Proof.
  refine (unsaved_description_is_empty_unsaved_job_is_an_error
            Repo.in_key_order (fun m => Ok (Queries.count_entries m)) (fun s => Ok ∅)
            (Models.TheJob <$> Queries.two_results)
            (Models.TheDescription <$> Queries.two_results) 9
            (fun m => reflexivity _) _ _).
  - apply (bool_decide_unpack _). vm_compute. exact I.
  - apply (bool_decide_unpack _). vm_compute. exact I.
Defined.

Lemma saved_jobs_are_listed_once_witness :
  exists rows,
    Queries.GetAllJobs Repo.in_key_order
      (Repo.SaveJobs Repo.in_key_order Repo.two_titles Repo.empty_db).2 = Ok rows /\
    NoDup (Models.ID <$> rows) /\
    Repo.titled 7 "Senior Frontend Developer" ∈ rows /\
    Repo.titled 7 "Frontend Developer" ∉ rows.
Proof.
  destruct (saved_jobs_are_listed_once Repo.in_key_order Repo.in_key_order
              Repo.two_titles Repo.empty_db
              (fun m => reflexivity _) (fun m => reflexivity _) eq_refl)
    as (rows & Hget & Hnd & Hmem).
  { intros k job H. cbn [Repo.jobs Repo.empty_db] in H.
    rewrite lookup_empty in H. discriminate. }
  exists rows. split; [exact Hget|]. split; [exact Hnd|]. split.
  - apply Hmem. reflexivity.
  - intros Hin. apply Hmem in Hin. vm_compute in Hin. discriminate.
Defined.


Lemma repeated_identifier_loses_every_description_witness :
  exists db',
    Pipeline.ProcessJobsStreaming Repo.in_key_order
      (fun m => Ok (Queries.count_entries m)) Queries.same_id_twice Repo.empty_db
    = (Some (ErrorfW "failed to save job descriptions: "
               (Some (Errorf "error saving job descriptions: pq: ON CONFLICT DO UPDATE command cannot affect row a second time"))),
       db') /\
    Repo.job_descriptions db' = ∅.
Proof.
  destruct (repeated_identifier_loses_every_description Repo.in_key_order
              (fun m => Ok (Queries.count_entries m)) Queries.count_entries
              Queries.same_id_twice Repo.empty_db
              (fun m => reflexivity _) (fun m => eq_refl) eq_refl)
    as (db' & Hrun & _ & Hdesc).
  - repeat constructor.
  - apply (bool_decide_unpack _). vm_compute. exact I.
  - exists db'. split; [exact Hrun|exact Hdesc].
Defined.

Lemma failed_jobs_statement_skips_the_descriptions_witness :
  exists rows db',
    Pipeline.ProcessJobsStreaming Repo.in_key_order
      (fun m => Ok (Queries.count_entries m)) Queries.two_results Queries.unreachable_db
    = (Some (ErrorfW "failed to save jobs to database: "
               (Some (Errorf "error inserting jobs: dial tcp: connection refused"))),
       db') /\
    Repo.executed db' = [Repo.UpsertJobs rows].
Proof.
  destruct (failed_jobs_statement_skips_the_descriptions Repo.in_key_order
              (fun m => Ok (Queries.count_entries m))
              Queries.two_results Queries.unreachable_db
              (LibError "dial tcp: connection refused") eq_refl ltac:(intros H; apply (f_equal length) in H; cbv in H; discriminate H))
    as (rows & db' & Hrun & Hexec & _).
  exists rows, db'. split; [exact Hrun|exact Hexec].
Defined.
